(** * imconv: image to SSD1306 page-addressed bitmap

    A shallow embedding of [imconv.py] and the properties of its pixel
    pipeline: scale/crop, alpha compositing, luma of the inverted colour,
    block downscaling with a threshold, and packing into pages of eight rows.

    Python integers are modelled as [Z] ([//] is [Z.div], which rounds to
    minus infinity like Python's), Python lists as [list] with checked
    indexing, and exceptions (including [exit]) as the [Raise] side of a
    small error monad. *)

From stdpp Require Import base list strings pretty.
From Stdlib Require Import ZArith Lia Ascii.

Open Scope Z_scope.

(** ** Exceptions and the error monad *)

Inductive exit_reason :=
  | BadScaleFactor      (* "ERROR Exit! Cannot find good scale factor" *)
  | UnsupportedFormat.  (* "ERROR Exit! Unsupported image format" *)

Inductive py_error :=
  | ZeroDivisionError
  | IndexError
  | TypeError
  | ValueError
  | SystemExit (why : exit_reason).

Inductive result (A : Type) :=
  | OK (a : A)
  | Raise (e : py_error).
Arguments OK {A} a.
Arguments Raise {A} e.

Definition bind {A B} (m : result A) (k : A -> result B) : result B :=
  match m with
  | OK a => k a
  | Raise e => Raise e
  end.

Notation "x <- m ;; k" := (bind m (fun x => k))
  (at level 100, m at next level, right associativity).

Definition raises {A} (m : result A) : Prop := exists e, m = Raise e.

(** [for x in l: body], threading the loop's variables as a state. *)
Fixpoint for_each {A S} (l : list A) (body : A -> S -> result S) (s : S)
  : result S :=
  match l with
  | [] => OK s
  | a :: l' => s' <- body a s ;; for_each l' body s'
  end.

(** ** Python primitives used by the program *)

(** [a // b] *)
Definition floordiv (a b : Z) : result Z :=
  if decide (b = 0) then Raise ZeroDivisionError else OK (a / b).

(** [a << n] *)
Definition lshift (a n : Z) : result Z :=
  if decide (n < 0) then Raise ValueError else OK (Z.shiftl a n).

(** [l[i]]: a negative index counts from the end, anything outside the
    list raises IndexError. *)
Definition getitem {A} (l : list A) (i : Z) : result A :=
  let j := if decide (i < 0) then i + Z.of_nat (length l) else i in
  if decide (j < 0) then Raise IndexError
  else match l !! Z.to_nat j with
       | Some a => OK a
       | None => Raise IndexError
       end.

(** [l[i] = v] *)
Definition setitem {A} (l : list A) (i : Z) (v : A) : result (list A) :=
  let j := if decide (i < 0) then i + Z.of_nat (length l) else i in
  if decide (0 <= j < Z.of_nat (length l)) then OK (<[Z.to_nat j := v]> l)
  else Raise IndexError.

(** [sum(l)] *)
Definition sum (l : list Z) : Z := fold_left Z.add l 0.

(** [range(start, stop, step)] for a positive step, [range(n)] being
    [range(0, n, 1)].  The program only calls it with steps that are at
    least one. *)
Definition range3 (start stop step : Z) : list Z :=
  (fun k => start + k * step) <$> seqZ 0 ((stop - start + step - 1) / step).

Definition range (n : Z) : list Z := range3 0 n 1.

(** ** scale_crop, rgba2rgb, color_invert, get_y *)

Definition default_scale : Z := 256.

Definition scale_crop (v scale : Z) : result Z :=
  v <- floordiv (v + scale - 1) scale ;;
  if decide (v < 0) then OK 0
  else if decide (v > 255) then OK 255
  else OK v.

Definition default_bg : list Z := [255; 255; 255].

Definition rgba2rgb (c bg : list Z) : result (list Z) :=
  r <- getitem c 0 ;;
  g <- getitem c 1 ;;
  b <- getitem c 2 ;;
  alpha <- getitem c 3 ;;
  bg_r <- getitem bg 0 ;;
  bg_g <- getitem bg 1 ;;
  bg_b <- getitem bg 2 ;;
  o_r <- scale_crop ((255 - alpha) * bg_r + alpha * r) default_scale ;;
  o_g <- scale_crop ((255 - alpha) * bg_g + alpha * g) default_scale ;;
  o_b <- scale_crop ((255 - alpha) * bg_b + alpha * b) default_scale ;;
  OK [o_r; o_g; o_b].

Definition color_invert (c : list Z) : result (list Z) :=
  c0 <- getitem c 0 ;;
  c1 <- getitem c 1 ;;
  c2 <- getitem c 2 ;;
  OK [255 - c0; 255 - c1; 255 - c2].

Definition get_y (rgb : list Z) : result Z :=
  r <- getitem rgb 0 ;;
  g <- getitem rgb 1 ;;
  b <- getitem rgb 2 ;;
  scale_crop (76 * r + 150 * g + 29 * b) default_scale.

(** ** Strings: [str.split] on one separator character, and [int(str)] *)

(** [s.split(sep)] for a separator of one character: the pieces between
    the occurrences of [sep], empty pieces included. *)
Fixpoint split (sep : ascii) (s : string) : list string :=
  match s with
  | EmptyString => [EmptyString]
  | String c s' =>
      if decide (c = sep) then EmptyString :: split sep s'
      else match split sep s' with
           | [] => [String c EmptyString]
           | piece :: rest => String c piece :: rest
           end
  end.

Definition is_space (c : ascii) : bool :=
  let n := Z.of_N (N_of_ascii c) in
  bool_decide (9 <= n <= 13 \/ n = 32).

Definition digit_of (c : ascii) : option Z :=
  let n := Z.of_N (N_of_ascii c) in
  if decide (48 <= n <= 57) then Some (n - 48) else None.

Fixpoint lstrip (s : string) : string :=
  match s with
  | String c s' => if is_space c then lstrip s' else s
  | EmptyString => EmptyString
  end.

Definition strip (s : string) : string :=
  String.rev (lstrip (String.rev (lstrip s))).

(** Decimal digits, where single underscores may separate digits. *)
Fixpoint digits (s : string) (acc : Z) (after_digit : bool) : option Z :=
  match s with
  | EmptyString => if after_digit then Some acc else None
  | String c s' =>
      match digit_of c with
      | Some d => digits s' (10 * acc + d) true
      | None =>
          if decide (c = "_"%char) then
            if after_digit then digits s' acc false else None
          else None
      end
  end.

(** [int(s)] on an ASCII string: surrounding white space (tab, line feed,
    vertical tab, form feed, carriage return, space), an optional sign,
    decimal digits with single underscores between them; ValueError
    otherwise. *)
Definition py_int (s : string) : result Z :=
  let t := strip s in
  let parsed :=
    match t with
    | String "+"%char r => digits r 0 false
    | String "-"%char r => Z.opp <$> digits r 0 false
    | _ => digits t 0 false
    end in
  match parsed with
  | Some n => OK n
  | None => Raise ValueError
  end.

(** ** The decoded image *)

(** What [px[x, y]] yields: an integer for single-band modes, a tuple of
    band values otherwise. *)
Inductive sample :=
  | SInt (v : Z)
  | STuple (c : list Z).

(** The part of a PIL image the program reads.  [pixels] is only consulted
    inside the image. *)
Record image := {
  width : N;
  height : N;
  mode : string;
  has_transparency_data : bool;
  pixels : Z -> Z -> sample
}.

(** [px[x, y]] for [px = im.load()]: a negative coordinate counts from the
    far edge, a coordinate outside the image raises IndexError. *)
Definition load (im : image) (x y : Z) : result sample :=
  let x := if decide (x < 0) then Z.of_N (width im) + x else x in
  let y := if decide (y < 0) then Z.of_N (height im) + y else y in
  if decide (0 <= x < Z.of_N (width im) /\ 0 <= y < Z.of_N (height im))
  then OK (pixels im x y)
  else Raise IndexError.

(** Subscripting an integer, or adding an integer to a tuple, is a
    TypeError. *)
Definition as_seq (s : sample) : result (list Z) :=
  match s with
  | STuple c => OK c
  | SInt _ => Raise TypeError
  end.

Definition as_int (s : sample) : result Z :=
  match s with
  | SInt v => OK v
  | STuple _ => Raise TypeError
  end.

(** ** main *)

(** The three variables set by the mode detection (lines 278-290). *)
Record flags := {
  has_alpha : bool;
  rgb_mode : bool;
  i_mode : Z
}.

Definition detect_mode (im : image) : result flags :=
  if negb (has_transparency_data im) then
    if decide (mode im = "RGBA"%string) then
      OK {| has_alpha := true; rgb_mode := false; i_mode := 65536 |}
    else if decide (mode im = "RGB"%string) then
      OK {| has_alpha := false; rgb_mode := true; i_mode := 65536 |}
    else
      let s := split ";"%char (mode im) in
      s0 <- getitem s 0 ;;
      if decide (s0 <> "I"%string) then Raise (SystemExit UnsupportedFormat)
      else
        s1 <- getitem s 1 ;;
        bits <- py_int s1 ;;
        m <- lshift 1 bits ;;
        OK {| has_alpha := false; rgb_mode := false; i_mode := m |}
  else OK {| has_alpha := true; rgb_mode := false; i_mode := 65536 |}.

(** Lines 245-252: [n // dest], raised to 1 when smaller. *)
Definition scale_factor (n dest : Z) : result Z :=
  q <- floordiv n dest ;;
  OK (if decide (q < 1) then 1 else q).

(** Lines 317-323: the RGB triple of the source pixel at [(x, y)]. *)
Definition pixel_rgb (im : image) (fl : flags) (x y : Z) : result (list Z) :=
  if has_alpha fl then
    s <- load im x y ;; c <- as_seq s ;; rgba2rgb c default_bg
  else if rgb_mode fl then
    s <- load im x y ;; as_seq s
  else
    s <- load im x y ;;
    v <- as_int s ;;
    pxx <- scale_crop v (i_mode fl / 256) ;;
    OK [pxx; pxx; pxx].

(** Line 325: [get_y(color_invert(rgb))]. *)
Definition pixel_value (im : image) (fl : flags) (x y : Z) : result Z :=
  rgb <- pixel_rgb im fl x y ;;
  inv <- color_invert rgb ;;
  get_y inv.

(** Lines 311-329: the window of [scale_factor_x] by [scale_factor_y]
    pixels at [(x, y)], collected in [vpx], and its mean [r]. *)
Definition block_mean (im : image) (fl : flags) (sx sy x y : Z) : result Z :=
  let vpx0 := replicate (Z.to_nat (sx * sy)) 0 in
  st <- for_each (range sy) (fun yy st =>
          for_each (range sx) (fun xx '(vpx, idx) =>
            v <- pixel_value im fl (x + xx) (y + yy) ;;
            vpx' <- setitem vpx idx v ;;
            OK (vpx', idx + 1)) st) (vpx0, 0) ;;
  floordiv (sum (fst st)) (sx * sy).

(** [img[i][j] = v]: rows are separate lists, so only row [i] changes. *)
Definition setitem2 (img : list (list Z)) (i j v : Z)
  : result (list (list Z)) :=
  row <- getitem img i ;;
  row' <- setitem row j v ;;
  setitem img i row'.

(** Lines 271 and 307-332: the grid [img] after the downscaling loops.
    Both quotients of line 332 are taken before the row is fetched; with
    the scale factors of [main], which are at least one, neither raises. *)
Definition downscale (im : image) (fl : flags) (sx sy thr : Z)
  : result (list (list Z)) :=
  let w := Z.of_N (width im) in
  let h := Z.of_N (height im) in
  let img0 := replicate (Z.to_nat h) (replicate (Z.to_nat w) 0) in
  for_each (range3 0 h sy) (fun y img =>
    for_each (range3 0 w sx) (fun x img =>
      r <- block_mean im fl sx sy x y ;;
      if decide (r > thr) then
        i <- floordiv y sy ;;
        j <- floordiv x sx ;;
        setitem2 img i j 1
      else OK img) img) img0.

(** The variables of the packing loops (lines 304-306). *)
Record packer := {
  result_array : list Z;
  byte : Z;
  byte_offset : Z
}.

Definition packer_init : packer :=
  {| result_array := []; byte := 0; byte_offset := 1 |}.

(** Lines 346-354: one pass of the innermost loop. *)
Definition pack_bit (img : list (list Z)) (hn n x y : Z) (st : packer)
  : result packer :=
  let yc := n * 8 + y in
  lit <- (if decide (yc < hn) then
            row <- getitem img yc ;;
            v <- getitem row x ;;
            OK (bool_decide (v <> 0))
          else OK false) ;;
  let byte1 := if lit then Z.lor (byte st) (byte_offset st) else byte st in
  let offset1 := Z.shiftl (byte_offset st) 1 in
  if decide (offset1 >= 256) then
    OK {| result_array := result_array st ++ [byte1];
          byte := 0; byte_offset := 1 |}
  else
    OK {| result_array := result_array st;
          byte := byte1; byte_offset := offset1 |}.

(** Lines 356-359: the flush after a column. *)
Definition flush_column (st : packer) : packer :=
  if decide (byte_offset st > 1) then
    {| result_array := result_array st ++ [byte st];
       byte := 0; byte_offset := 1 |}
  else st.

(** Lines 343-365: the packing loops and the last flush. *)
Definition pack (img : list (list Z)) (hn hn2 wn : Z) : result (list Z) :=
  st <- for_each (range hn2) (fun n st =>
          for_each (range3 0 wn 1) (fun x st =>
            st' <- for_each (range3 0 8 1) (pack_bit img hn n x) st ;;
            OK (flush_column st')) st) packer_init ;;
  if decide (byte_offset st > 1) then OK (result_array st ++ [byte st])
  else OK (result_array st).

(** What [save_to_h] is given to write: the defines [_W], [_H], [_FLAGS],
    [_DATA_LEN] and the array [_Data]. *)
Record header := {
  hdr_w : Z;
  hdr_h : Z;
  hdr_flags : Z;
  hdr_data_len : Z;
  hdr_data : list Z
}.

Definition save_to_h (result : list Z) (w h : Z) : header :=
  {| hdr_w := w; hdr_h := h; hdr_flags := 0;
     hdr_data_len := Z.of_nat (length result); hdr_data := result |}.

(** [main], up to the call of [save_to_h]; the diagnostics collected in
    [comments] and the two append-mode lists are left out.  [Raise] means
    that the run ended before [save_to_h] opened the header file. *)
Definition main (im : image) (dest_w dest_h thr : Z) : result header :=
  let h := Z.of_N (height im) in
  let w := Z.of_N (width im) in
  scale_factor_x <- scale_factor w dest_w ;;
  scale_factor_y <- scale_factor h dest_h ;;
  hn <- floordiv h scale_factor_y ;;
  hn2 <- floordiv (hn + 8 - 1) 8 ;;
  wn <- floordiv w scale_factor_x ;;
  if decide (hn <> dest_h \/ wn <> dest_w) then
    Raise (SystemExit BadScaleFactor)
  else
    fl <- detect_mode im ;;
    img <- downscale im fl scale_factor_x scale_factor_y thr ;;
    result_array <- pack img hn hn2 wn ;;
    OK (save_to_h result_array wn hn).

(** ** Header names (lines 68-95) *)

(** [s.rfind(c)] for one character: the index of its last occurrence,
    or -1. *)
Fixpoint rfind (c : ascii) (s : string) : Z :=
  match s with
  | EmptyString => -1
  | String a s' =>
      let i := rfind c s' in
      if decide (0 <= i) then i + 1
      else if decide (a = c) then 0 else -1
  end.

(** [s[n:]] and [s[:n]] for a non-negative [n]. *)
Fixpoint drop_str (n : nat) (s : string) : string :=
  match n, s with
  | O, _ => s
  | S n', String _ s' => drop_str n' s'
  | S _, EmptyString => EmptyString
  end.

Fixpoint take_str (n : nat) (s : string) : string :=
  match n, s with
  | O, _ => EmptyString
  | S n', String a s' => String a (take_str n' s')
  | S _, EmptyString => EmptyString
  end.

(** [c in s] *)
Fixpoint contains (c : ascii) (s : string) : bool :=
  match s with
  | EmptyString => false
  | String a s' => bool_decide (a = c) || contains c s'
  end.

(** Some character of [s] is not [c]. *)
Fixpoint has_other (c : ascii) (s : string) : bool :=
  match s with
  | EmptyString => false
  | String a s' => bool_decide (a <> c) || has_other c s'
  end.

(** [os.path.basename] of posixpath: what follows the last "/". *)
Definition basename (p : string) : string :=
  drop_str (Z.to_nat (rfind "/" p + 1)) p.

(** [os.path.splitext] of posixpath: the path is cut at its last "."
    when that dot comes after the last "/" and some character between
    the two is not a dot; otherwise the extension is empty. *)
Definition splitext (p : string) : string * string :=
  let sepIndex := rfind "/" p in
  let dotIndex := rfind "." p in
  if decide (dotIndex > sepIndex) then
    let between := take_str (Z.to_nat (dotIndex - (sepIndex + 1)))
                            (drop_str (Z.to_nat (sepIndex + 1)) p) in
    if has_other "." between then
      (take_str (Z.to_nat dotIndex) p, drop_str (Z.to_nat dotIndex) p)
    else (p, EmptyString)
  else (p, EmptyString).

(** [s.replace(old, new)] for an [old] of one character. *)
Fixpoint replace (old : ascii) (new : string) (s : string) : string :=
  match s with
  | EmptyString => EmptyString
  | String a s' =>
      if decide (a = old) then new +:+ replace old new s'
      else String a (replace old new s')
  end.

Definition get_h_define (filename : string) : string :=
  let base := basename filename in
  let f := splitext base in
  "IMG_" +:+ replace "-" "_" (fst f).

Definition get_h_filename (filename : string) : string * string :=
  let base := basename filename in
  let f := splitext base in
  let ext := replace "." "" (snd f) in
  ("Img_" +:+ fst f +:+ "_" +:+ ext +:+ ".h", fst f).

(** ** The text of the data array (lines 135-149 of [save_to_h]) *)

Definition tab : string := String (ascii_of_nat 9) EmptyString.
Definition newline : string := String (ascii_of_nat 10) EmptyString.

Definition hex_digit (d : N) : ascii :=
  match d with
  | 0 => "0" | 1 => "1" | 2 => "2" | 3 => "3" | 4 => "4" | 5 => "5"
  | 6 => "6" | 7 => "7" | 8 => "8" | 9 => "9" | 10 => "a" | 11 => "b"
  | 12 => "c" | 13 => "d" | 14 => "e" | _ => "f"
  end%N%char.

Fixpoint hex_digits (fuel : nat) (n : N) (acc : string) : string :=
  match fuel with
  | O => acc
  | S fuel' =>
      let acc' := String (hex_digit (n mod 16)) acc in
      if decide (n / 16 = 0)%N then acc'
      else hex_digits fuel' (n / 16)%N acc'
  end.

(** [hex(n)] *)
Definition hex (n : Z) : string :=
  let digits := hex_digits (S (N.to_nat (N.log2 (Z.to_N (Z.abs n)))))
                           (Z.to_N (Z.abs n)) EmptyString in
  if decide (n < 0) then "-0x" +:+ digits else "0x" +:+ digits.

(** [str(n)] for an integer: stdpp's decimal printer. *)
Definition str (n : Z) : string := pretty n.

(** The variables of the loop; [start] is unbound until the first
    item. *)
Record row_state := {
  row_idx : Z;
  row_gidx : Z;
  row_text : string;
  row_start : option Z
}.

(** One pass of the loop of lines 138-147; [None] stands for the error
    of reading [start] while it is unbound. *)
Definition format_item (items_per_row r : Z) (st : row_state)
  : option row_state :=
  let st1 :=
    if decide (row_idx st = 0) then
      {| row_idx := row_idx st; row_gidx := row_gidx st;
         row_text := row_text st +:+ tab;
         row_start := Some (row_gidx st) |}
    else st in
  let s := row_text st1 +:+ (hex r +:+ ", ") in
  let idx := row_idx st1 + 1 in
  let gidx := row_gidx st1 + 1 in
  if decide (idx = items_per_row) then
    match row_start st1 with
    | Some start =>
        Some {| row_idx := 0; row_gidx := gidx;
                row_text := s +:+ ("//" +:+ (str start +:+ newline));
                row_start := row_start st1 |}
    | None => None
    end
  else
    Some {| row_idx := idx; row_gidx := gidx; row_text := s;
            row_start := row_start st1 |}.

Fixpoint format_items (items_per_row : Z) (result : list Z) (st : row_state)
  : option row_state :=
  match result with
  | [] => Some st
  | r :: rest =>
      match format_item items_per_row r st with
      | Some st' => format_items items_per_row rest st'
      | None => None
      end
  end.

(** The string [s] written between the braces of the array. *)
Definition format_data (result : list Z) (items_per_row : Z)
  : option string :=
  match format_items items_per_row result
          {| row_idx := 0; row_gidx := 0; row_text := EmptyString;
             row_start := None |} with
  | Some st =>
      if decide (row_idx st > 0) then
        match row_start st with
        | Some start =>
            Some (row_text st +:+ ("//" +:+ (str start +:+ newline)))
        | None => None
        end
      else Some (row_text st)
  | None => None
  end.

(** ** Reference notions the properties are stated with *)

(** Ceiling division, the least [q] with [v <= q * d] when [d] is positive
    (see [ceil_div_spec]). *)
Definition ceil_div (v d : Z) : Z := - ((- v) / d).

Definition clamp (v lo hi : Z) : Z := Z.max lo (Z.min v hi).

Definition channel (v : Z) : Prop := 0 <= v <= 255.

(** The RGBA channel formula with the divisor left open. *)
Definition over_white (d a c : Z) : Z :=
  clamp (ceil_div ((255 - a) * 255 + a * c) d) 0 255.

(** Luma of the inverted colour. *)
Definition inverted_luma (r g b : Z) : Z :=
  clamp (ceil_div (76 * (255 - r) + 150 * (255 - g) + 29 * (255 - b)) 256)
        0 255.

(** Sum of [f] over the elements of [l]. *)
Definition big_sum (f : Z -> Z) (l : list Z) : Z :=
  foldr (fun a acc => f a + acc) 0 l.

(** The grid cell at row [r], column [c], if there is one. *)
Definition cell (img : list (list Z)) (r c : nat) : option Z :=
  match img !! r with
  | Some row => row !! c
  | None => None
  end.

(** A grid bit is set when its cell holds a non-zero value. *)
Definition grid_bit (img : list (list Z)) (r c : Z) : bool :=
  match cell img (Z.to_nat r) (Z.to_nat c) with
  | Some v => bool_decide (v <> 0)
  | None => false
  end.

(** The grid has a cell at every row below [rows] and column below
    [cols]. *)
Definition covers (img : list (list Z)) (rows cols : Z) : Prop :=
  forall r c, 0 <= r < rows -> 0 <= c < cols ->
    is_Some (cell img (Z.to_nat r) (Z.to_nat c)).

(** Row [y] of page [p] is lit at column [x]. *)
Definition lit (img : list (list Z)) (dest_h p x y : Z) : bool :=
  bool_decide (p * 8 + y < dest_h) && grid_bit img (p * 8 + y) x.

(** The byte of page [p] at column [x]: [2^y] for each lit row [y]. *)
Definition page_byte (img : list (list Z)) (dest_h p x : Z) : Z :=
  big_sum (fun y => if lit img dest_h p x y then 2 ^ y else 0) (seqZ 0 8).

(** The sum of [val] over the window of [sx] by [sy] pixels whose top
    left corner is [(bx, by_)]. *)
Definition block_sum (val : Z -> Z -> Z) (sx sy bx by_ : Z) : Z :=
  big_sum (fun yy => big_sum (fun xx => val (bx + xx) (by_ + yy)) (seqZ 0 sx))
          (seqZ 0 sy).

(** The floor mean of [val] over the window of destination pixel
    [(dx, dy)]. *)
Definition block_avg (val : Z -> Z -> Z) (sx sy dx dy : Z) : Z :=
  block_sum val sx sy (dx * sx) (dy * sy) / (sx * sy).

(** A grid of [rows] rows of [cols] cells. *)
Definition grid_dims (img : list (list Z)) (rows cols : nat) : Prop :=
  length img = rows /\ Forall (fun row => length row = cols) img.

(** The bit of destination pixel [(dx, dy)]: 1 when the floor mean of its
    window is above the threshold. *)
Definition threshold_bit (val : Z -> Z -> Z) (sx sy thr dx dy : Z) : Z :=
  if decide (block_avg val sx sy dx dy > thr) then 1 else 0.

(** The state of the grid while the downscaling loops run: the cells of
    the destination rows before row [i], and of row [i] before column [j],
    hold their bit; the other destination cells still hold 0. *)
Definition done_upto (bit : Z -> Z -> Z) (rows cols dest_rows dest_cols : nat)
    (i j : nat) (img : list (list Z)) : Prop :=
  grid_dims img rows cols
  /\ forall r c : nat, (r < dest_rows)%nat -> (c < dest_cols)%nat ->
       cell img r c
       = Some (if decide (r < i \/ (r = i /\ c < j))%nat
               then bit (Z.of_nat c) (Z.of_nat r) else 0).

(** [done_upto] for the grid, the value function and the threshold of one
    run of the downscaler. *)
Definition grid_state (im : image) (val : Z -> Z -> Z) (sx sy thr hn wn : Z)
    (i j : nat) (img : list (list Z)) : Prop :=
  done_upto (threshold_bit val sx sy thr)
    (Z.to_nat (Z.of_N (height im))) (Z.to_nat (Z.of_N (width im)))
    (Z.to_nat hn) (Z.to_nat wn) i j img.

(** How the display reads the stream back: the pixel at column [x] and
    row [row] is bit [row mod 8] of the byte at [row // 8 * dest_w + x]. *)
Definition read_bit (bs : list Z) (dest_w x row : Z) : bool :=
  match bs !! Z.to_nat (row / 8 * dest_w + x) with
  | Some b => Z.testbit b (row mod 8)
  | None => false
  end.

(** The items of one row of the array text, each followed by ", ". *)
Definition items_text (c : list Z) : string :=
  foldr (fun r acc => hex r +:+ (", " +:+ acc)) EmptyString c.

(** One row: a tab, the items, and the index of the first item as a
    comment. *)
Definition row_text_of (start : Z) (c : list Z) : string :=
  tab +:+ (items_text c +:+ ("//" +:+ (str start +:+ newline))).

(** The rows of [l] cut into groups of [n] items, the first one
    numbered [start]. *)
Fixpoint rows_text (fuel n : nat) (start : Z) (l : list Z) : string :=
  match fuel with
  | O => EmptyString
  | S fuel' =>
      match l with
      | [] => EmptyString
      | _ => row_text_of start (take n l)
             +:+ rows_text fuel' n (start + Z.of_nat n) (drop n l)
      end
  end.

(** ** Sample images *)

(** A 16x16 RGB image of one colour. *)
Definition solid (c : list Z) : image :=
  {| width := 16; height := 16; mode := "RGB";
     has_transparency_data := false;
     pixels := fun _ _ => STuple c |}.

(** A single-band image of one value with a depth tag. *)
Definition gray (tag : string) (w h : N) (v : Z) : image :=
  {| width := w; height := h; mode := tag;
     has_transparency_data := false;
     pixels := fun _ _ => SInt v |}.

(** A palette image that carries transparency data. *)
Definition palette_with_transparency : image :=
  {| width := 16; height := 16; mode := "P";
     has_transparency_data := true;
     pixels := fun _ _ => SInt 3 |}.

(** A 4x2 RGB image: the left half is the gray (128, 128, 128), the right
    half the gray (127, 127, 127). *)
Definition two_grays : image :=
  {| width := 4; height := 2; mode := "RGB";
     has_transparency_data := false;
     pixels := fun x _ => if decide (x < 2) then STuple [128; 128; 128]
                          else STuple [127; 127; 127] |}.



(** The luma of the inverted colour of its pixels. *)
Definition two_grays_val (x y : Z) : Z :=
  if decide (x < 2) then 127 else 128.

(** ** Vocabulary of the proofs *)

(** The packer between two bytes, with [res] written so far. *)
Definition packer_at (res : list Z) : packer :=
  {| result_array := res; byte := 0; byte_offset := 1 |}.

(** [pack_bit] once the condition of line 347 is known. *)
Definition pack_step (b : bool) (st : packer) : packer :=
  let byte1 := if b then Z.lor (byte st) (byte_offset st) else byte st in
  let offset1 := Z.shiftl (byte_offset st) 1 in
  if decide (offset1 >= 256) then
    {| result_array := result_array st ++ [byte1];
       byte := 0; byte_offset := 1 |}
  else
    {| result_array := result_array st;
       byte := byte1; byte_offset := offset1 |}.

(** The pages, one after the other, each a row of [wn] bytes. *)
Definition pages (img : list (list Z)) (hn hn2 wn : Z) : list (list Z) :=
  (fun n => page_byte img hn n <$> seqZ 0 wn) <$> seqZ 0 hn2.

(** Evaluates the subscripts of literal lists. *)
Ltac getitems :=
  repeat match goal with
         | |- context [getitem ?l ?i] =>
             let v := eval cbv in (getitem l i) in
             change (getitem l i) with v; cbn [bind]
         end.

(** * Properties *)

Lemma ceil_div_spec v d :
  0 < d -> d * (ceil_div v d - 1) < v <= d * ceil_div v d.
Proof.
  intros Hd. unfold ceil_div.
  pose proof (Z.mul_div_le (- v) d Hd).
  pose proof (Z.mul_succ_div_gt (- v) d Hd).
  lia.
Qed.

Lemma ceil_div_add v d : 0 < d -> (v + d - 1) / d = ceil_div v d.
Proof.
  intros Hd. pose proof (ceil_div_spec v d Hd) as [Hlo Hhi].
  symmetry. apply Z.div_unique with (r := v + d - 1 - d * ceil_div v d); lia.
Qed.

Lemma clamp_range v : 0 <= clamp v 0 255 <= 255.
Proof. unfold clamp. lia. Qed.

Lemma scale_crop_clamp v d :
  0 < d -> scale_crop v d = OK (clamp (ceil_div v d) 0 255).
Proof.
  intros Hd. unfold scale_crop, floordiv.
  destruct (decide (d = 0)) as [->|_]; [lia|]. simpl.
  rewrite ceil_div_add by done. unfold clamp.
  repeat case_decide; f_equal; lia.
Qed.

(** C8: with the default scale, [scale_crop v] is the ceiling of [v / 256]
    clamped to 0..255, for every integer [v]; its value is always in 0..255;
    and the four boundary values are 0, 255, 255 and 0. *)
Theorem scale_crop_contract :
  (forall v : Z,
     scale_crop v default_scale = OK (clamp (ceil_div v 256) 0 255)
     /\ 0 <= clamp (ceil_div v 256) 0 255 <= 255)
  /\ scale_crop 0 default_scale = OK 0
  /\ scale_crop 65280 default_scale = OK 255
  /\ scale_crop 65281 default_scale = OK 255
  /\ scale_crop (-1) default_scale = OK 0.
Proof.
  split; [|by repeat split].
  intros v. split; [|apply clamp_range].
  by apply scale_crop_clamp.
Qed.

(** ** Alpha compositing *)

Lemma rgba2rgb_eq r g b a :
  rgba2rgb [r; g; b; a] default_bg
  = OK [over_white 256 a r; over_white 256 a g; over_white 256 a b].
Proof.
  unfold rgba2rgb, default_bg, default_scale, over_white. getitems.
  rewrite !scale_crop_clamp by lia. reflexivity.
Qed.

(** C2, as stated, does not hold: the pixel (128, 0, 0) with alpha 2 gives
    254 in the red channel, where a ceiling division by 255 gives 255. *)
Lemma rgba2rgb_divisor_255_fails :
  channel 128 /\ channel 0 /\ channel 2
  /\ rgba2rgb [128; 0; 0; 2] default_bg = OK [254; 253; 253]
  /\ over_white 255 2 128 = 255
  /\ rgba2rgb [128; 0; 0; 2] default_bg
     <> OK [over_white 255 2 128; over_white 255 2 0; over_white 255 2 0].
Proof. unfold channel. repeat split; try lia; done. Qed.

(** C2, amended: an RGBA pixel with components in 0..255 is composited over
    the white background (255, 255, 255), each channel [c] becoming
    [(255 - a) * 255 + a * c] divided by 256 (the default scale of
    [scale_crop], not 255) with ceiling, then clamped to 0..255. *)
Theorem rgba2rgb_over_white r g b a :
  channel r -> channel g -> channel b -> channel a ->
  rgba2rgb [r; g; b; a] default_bg
  = OK [clamp (ceil_div ((255 - a) * 255 + a * r) 256) 0 255;
        clamp (ceil_div ((255 - a) * 255 + a * g) 256) 0 255;
        clamp (ceil_div ((255 - a) * 255 + a * b) 256) 0 255].
Proof. intros _ _ _ _. apply rgba2rgb_eq. Qed.

Lemma rgba2rgb_over_white_witness :
  rgba2rgb [128; 0; 0; 2] default_bg
  = OK [clamp (ceil_div ((255 - 2) * 255 + 2 * 128) 256) 0 255;
        clamp (ceil_div ((255 - 2) * 255 + 2 * 0) 256) 0 255;
        clamp (ceil_div ((255 - 2) * 255 + 2 * 0) 256) 0 255].
Proof. apply rgba2rgb_over_white; unfold channel; lia. Defined.

(** ** Luma of the inverted colour *)

Lemma color_invert_eq r g b :
  color_invert [r; g; b] = OK [255 - r; 255 - g; 255 - b].
Proof. reflexivity. Qed.

Lemma get_y_eq r g b :
  get_y [r; g; b] = OK (clamp (ceil_div (76 * r + 150 * g + 29 * b) 256) 0 255).
Proof.
  unfold get_y, default_scale. getitems.
  by rewrite scale_crop_clamp.
Qed.

Lemma pixel_value_eq im fl x y r g b :
  pixel_rgb im fl x y = OK [r; g; b] ->
  pixel_value im fl x y = OK (inverted_luma r g b).
Proof.
  intros H. unfold pixel_value. rewrite H. cbn [bind].
  rewrite color_invert_eq. cbn [bind]. apply get_y_eq.
Qed.

(** C6: for an RGB triple with channels in 0..255, the value that enters the
    block mean is the luma of the inverted triple: the colour is inverted
    first (255 - channel), then the weights 76, 150, 29 are applied, the sum
    is divided by 256 with ceiling and clamped to 0..255. *)
Theorem inverted_luma_of_pixel im fl x y r g b :
  channel r -> channel g -> channel b ->
  pixel_rgb im fl x y = OK [r; g; b] ->
  color_invert [r; g; b] = OK [255 - r; 255 - g; 255 - b]
  /\ (rgb' <- color_invert [r; g; b] ;; get_y rgb')
     = OK (clamp (ceil_div (76 * (255 - r) + 150 * (255 - g) + 29 * (255 - b))
                           256) 0 255)
  /\ pixel_value im fl x y
     = OK (clamp (ceil_div (76 * (255 - r) + 150 * (255 - g) + 29 * (255 - b))
                           256) 0 255).
Proof.
  intros _ _ _ H. split; [reflexivity|]. split.
  - rewrite color_invert_eq. cbn [bind]. apply get_y_eq.
  - by apply pixel_value_eq.
Qed.

Lemma inverted_luma_of_pixel_witness :
  pixel_value (solid [10; 20; 30])
    {| has_alpha := false; rgb_mode := true; i_mode := 65536 |} 3 4
  = OK (clamp (ceil_div (76 * (255 - 10) + 150 * (255 - 20) + 29 * (255 - 30))
                        256) 0 255).
Proof.
  apply (inverted_luma_of_pixel (solid [10; 20; 30]) _ 3 4 10 20 30);
    unfold channel; try lia; reflexivity.
Defined.

(** ** Single-band images with a depth tag *)




(** A depth below 8: with the tag "I;4" the divisor [2^4 // 256] is 0
    and the first pixel raises ZeroDivisionError. *)
Lemma gray_depth_4_raises :
  split ";" (mode (gray "I;4" 1 1 9)) = ["I"%string; "4"%string]
  /\ py_int "4" = OK 4
  /\ detect_mode (gray "I;4" 1 1 9)
     = OK {| has_alpha := false; rgb_mode := false; i_mode := 16 |}
  /\ 16 / 256 = 0
  /\ pixel_rgb (gray "I;4" 1 1 9)
       {| has_alpha := false; rgb_mode := false; i_mode := 16 |} 0 0
     = Raise ZeroDivisionError
  /\ main (gray "I;4" 1 1 9) 1 1 127 = Raise ZeroDivisionError.
Proof. repeat split. Qed.




(** ** The scale factors and the dimension check *)

Lemma for_each_raises {A S} (l : list A) (body : A -> S -> result S) a :
  a ∈ l -> (forall s, raises (body a s)) -> forall s, raises (for_each l body s).
Proof.
  intros Hin Hbody. induction l as [|b l IH]; intros s.
  - by apply elem_of_nil in Hin.
  - cbn [for_each]. apply elem_of_cons in Hin as [->|Hin].
    + destruct (Hbody s) as [e ->]. by exists e.
    + destruct (body b s) as [s'|e]; cbn [bind]; [by apply IH|by exists e].
Qed.

Lemma bind_raises {A B} (m : result A) (k : A -> result B) :
  raises m -> raises (bind m k).
Proof. intros [e ->]. by exists e. Qed.

Lemma bind_raises_k {A B} (m : result A) (k : A -> result B) :
  (forall a, raises (k a)) -> raises (bind m k).
Proof. intros H. destruct m as [a|e]; cbn [bind]; [apply H|by exists e]. Qed.

Lemma elem_of_range3 k n s :
  0 < s -> k ∈ range3 0 n s <-> exists i, k = i * s /\ 0 <= i /\ i * s < n.
Proof.
  intros Hs. unfold range3. rewrite list_elem_of_fmap.
  setoid_rewrite elem_of_seqZ.
  replace (n - 0 + s - 1) with (n + s - 1) by lia.
  assert (Hdiv : forall i, i < (n + s - 1) / s <-> i * s < n).
  { intros i. pose proof (Z.mul_div_le (n + s - 1) s Hs).
    pose proof (Z.mul_succ_div_gt (n + s - 1) s Hs).
    split; intros; nia. }
  split.
  - intros (i & -> & Hi). exists i. rewrite <- Hdiv. lia.
  - intros (i & -> & H0 & Hi). exists i. rewrite <- Hdiv in Hi. lia.
Qed.

Lemma elem_of_range k n : k ∈ range n <-> 0 <= k < n.
Proof.
  unfold range. rewrite elem_of_range3 by lia. split.
  - intros (i & -> & ?). lia.
  - intros ?. exists k. lia.
Qed.

Lemma scale_factor_eq n dest :
  dest <> 0 -> scale_factor n dest = OK (Z.max 1 (n / dest)).
Proof.
  intros H. unfold scale_factor, floordiv. rewrite decide_False by done.
  cbn [bind]. case_decide; f_equal; lia.
Qed.

Lemma scale_factor_zero n : scale_factor n 0 = Raise ZeroDivisionError.
Proof. reflexivity. Qed.

Lemma main_zero_dest im dest_w dest_h thr :
  dest_w = 0 \/ dest_h = 0 ->
  main im dest_w dest_h thr = Raise ZeroDivisionError.
Proof.
  intros H. unfold main.
  destruct (decide (dest_w = 0)) as [->|Hw]; [done|].
  destruct H as [? | ->]; [done|].
  by rewrite scale_factor_eq.
Qed.

(** [main] after the scale factors are computed. *)
Lemma main_unfold im dest_w dest_h thr :
  dest_w <> 0 -> dest_h <> 0 ->
  let w := Z.of_N (width im) in
  let h := Z.of_N (height im) in
  let sx := Z.max 1 (w / dest_w) in
  let sy := Z.max 1 (h / dest_h) in
  main im dest_w dest_h thr
  = if decide (h / sy <> dest_h \/ w / sx <> dest_w) then
      Raise (SystemExit BadScaleFactor)
    else
      fl <- detect_mode im ;;
      img <- downscale im fl sx sy thr ;;
      result_array <- pack img (h / sy) ((h / sy + 8 - 1) / 8) (w / sx) ;;
      OK (save_to_h result_array (w / sx) (h / sy)).
Proof.
  intros Hw Hh w h sx sy. unfold main.
  rewrite !scale_factor_eq by done. cbn [bind].
  fold w h sx sy. unfold floordiv.
  rewrite !decide_False by lia. reflexivity.
Qed.

Lemma main_check_fails im dest_w dest_h thr :
  let w := Z.of_N (width im) in
  let h := Z.of_N (height im) in
  w / Z.max 1 (w / dest_w) <> dest_w \/ h / Z.max 1 (h / dest_h) <> dest_h ->
  main im dest_w dest_h thr = Raise (SystemExit BadScaleFactor)
  \/ main im dest_w dest_h thr = Raise ZeroDivisionError.
Proof.
  intros w h H.
  destruct (decide (dest_w = 0 \/ dest_h = 0)) as [Hz|Hz].
  { right. by apply main_zero_dest. }
  left. rewrite main_unfold by tauto. fold w h.
  rewrite decide_True; [done|tauto].
Qed.

Lemma load_outside im x y :
  0 <= x -> 0 <= y ->
  Z.of_N (width im) <= x \/ Z.of_N (height im) <= y ->
  load im x y = Raise IndexError.
Proof.
  intros Hx Hy H. unfold load.
  rewrite (decide_False (P := x < 0)), (decide_False (P := y < 0)) by lia.
  cbv zeta. by rewrite decide_False by lia.
Qed.

Lemma pixel_value_outside im fl x y :
  0 <= x -> 0 <= y ->
  Z.of_N (width im) <= x \/ Z.of_N (height im) <= y ->
  raises (pixel_value im fl x y).
Proof.
  intros Hx Hy H. exists IndexError. unfold pixel_value, pixel_rgb.
  rewrite load_outside by done.
  by destruct (has_alpha fl), (rgb_mode fl).
Qed.

Lemma block_mean_outside im fl sx sy x y xx yy :
  0 <= xx < sx -> 0 <= yy < sy -> 0 <= x + xx -> 0 <= y + yy ->
  Z.of_N (width im) <= x + xx \/ Z.of_N (height im) <= y + yy ->
  raises (block_mean im fl sx sy x y).
Proof.
  intros Hxx Hyy Hx Hy H. unfold block_mean. apply bind_raises.
  apply for_each_raises with (a := yy); [by apply elem_of_range|].
  intros st. apply for_each_raises with (a := xx); [by apply elem_of_range|].
  intros [vpx idx]. apply bind_raises. by apply pixel_value_outside.
Qed.

Lemma downscale_outside im fl sx sy thr x y xx yy :
  x ∈ range3 0 (Z.of_N (width im)) sx ->
  y ∈ range3 0 (Z.of_N (height im)) sy ->
  0 <= xx < sx -> 0 <= yy < sy -> 0 <= x + xx -> 0 <= y + yy ->
  Z.of_N (width im) <= x + xx \/ Z.of_N (height im) <= y + yy ->
  raises (downscale im fl sx sy thr).
Proof.
  intros Hx Hy Hxx Hyy H0x H0y H. unfold downscale.
  apply for_each_raises with (a := y); [done|].
  intros img. apply for_each_raises with (a := x); [done|].
  intros img'. apply bind_raises. by apply (block_mean_outside _ _ _ _ _ _ xx yy).
Qed.

(** A window that does not fit: the quotient matches, the remainder is not
    zero, and the last window of a row or column reads outside the image. *)
Lemma downscale_remainder im fl sx sy thr :
  let w := Z.of_N (width im) in
  let h := Z.of_N (height im) in
  1 <= sx -> 1 <= sy -> 0 < w -> 0 < h ->
  w mod sx <> 0 \/ h mod sy <> 0 ->
  raises (downscale im fl sx sy thr).
Proof.
  intros w h Hsx Hsy Hw Hh H.
  pose proof (Z.div_mod w sx ltac:(lia)) as Ew.
  pose proof (Z.mod_pos_bound w sx ltac:(lia)) as Bw.
  pose proof (Z.div_mod h sy ltac:(lia)) as Eh.
  pose proof (Z.mod_pos_bound h sy ltac:(lia)) as Bh.
  assert (0 <= w / sx) by (apply Z.div_pos; lia).
  assert (0 <= h / sy) by (apply Z.div_pos; lia).
  destruct (decide (w mod sx = 0)) as [Hx|Hx].
  - assert (Hy : h mod sy <> 0) by tauto.
    apply (downscale_outside im fl sx sy thr 0 (h / sy * sy) 0 (h mod sy)).
    + apply elem_of_range3; [lia|]. exists 0. fold w. lia.
    + apply elem_of_range3; [lia|]. exists (h / sy). fold h. lia.
    + lia.
    + lia.
    + lia.
    + nia.
    + right. fold h. lia.
  - apply (downscale_outside im fl sx sy thr (w / sx * sx) 0 (w mod sx) 0).
    + apply elem_of_range3; [lia|]. exists (w / sx). fold w. lia.
    + apply elem_of_range3; [lia|]. exists 0. fold h. lia.
    + lia.
    + lia.
    + nia.
    + lia.
    + left. fold w. lia.
Qed.

(** C4: with [scale_x = max 1 (W // dest_w)] and
    [scale_y = max 1 (H // dest_h)], if a scale factor does not divide its
    source dimension, or a quotient differs from the requested dimension,
    [main] raises before [save_to_h] is called: no header is written. *)
Theorem non_exact_tiling_fails im dest_w dest_h thr :
  let w := Z.of_N (width im) in
  let h := Z.of_N (height im) in
  let scale_x := Z.max 1 (w / dest_w) in
  let scale_y := Z.max 1 (h / dest_h) in
  w mod scale_x <> 0 \/ h mod scale_y <> 0
  \/ w / scale_x <> dest_w \/ h / scale_y <> dest_h ->
  raises (main im dest_w dest_h thr).
Proof.
  intros w h sx sy H.
  destruct (decide (w / sx <> dest_w \/ h / sy <> dest_h)) as [Hq|Hq].
  { destruct (main_check_fails im dest_w dest_h thr Hq) as [-> | ->];
      by eexists. }
  destruct (decide (dest_w = 0 \/ dest_h = 0)) as [Hz|Hz].
  { rewrite main_zero_dest by done. by eexists. }
  rewrite main_unfold by tauto. fold w h sx sy.
  rewrite decide_False by tauto.
  apply bind_raises_k. intros fl. apply bind_raises.
  assert (w / sx = dest_w /\ h / sy = dest_h) as [Ew Eh] by lia.
  apply downscale_remainder; fold w h; try lia.
  - destruct (decide (w = 0)) as [E0|]; [|lia].
    rewrite E0, Z.div_0_l in Ew by lia. lia.
  - destruct (decide (h = 0)) as [E0|]; [|lia].
    rewrite E0, Z.div_0_l in Eh by lia. lia.
Qed.

Lemma non_exact_tiling_fails_witness :
  raises (main (gray "I;16" 33 16 0) 16 16 127).
Proof.
  apply (non_exact_tiling_fails (gray "I;16" 33 16 0) 16 16 127).
  left. vm_compute. discriminate.
Defined.

(** C10: when the source is narrower than [dest_w] or lower than [dest_h],
    the scale factor of that axis is 1, the computed dimension is the
    source dimension, which differs from the requested one, and [main]
    raises before [save_to_h] is called. *)
Theorem upscaling_fails im dest_w dest_h thr :
  let w := Z.of_N (width im) in
  let h := Z.of_N (height im) in
  w < dest_w \/ h < dest_h ->
  (w < dest_w ->
   scale_factor w dest_w = OK 1 /\ floordiv w 1 = OK w /\ w <> dest_w)
  /\ (h < dest_h ->
      scale_factor h dest_h = OK 1 /\ floordiv h 1 = OK h /\ h <> dest_h)
  /\ (main im dest_w dest_h thr = Raise (SystemExit BadScaleFactor)
      \/ main im dest_w dest_h thr = Raise ZeroDivisionError).
Proof.
  intros w h H.
  assert (0 <= w /\ 0 <= h) as [Hw0 Hh0] by (unfold w, h; lia).
  assert (Hsmall : forall n d, 0 <= n < d ->
            scale_factor n d = OK 1 /\ floordiv n 1 = OK n /\ n <> d).
  { intros n d Hn. rewrite scale_factor_eq by lia.
    rewrite Z.div_small by lia. unfold floordiv. rewrite Z.div_1_r.
    repeat split. lia. }
  split; [intros; apply Hsmall; lia|]. split; [intros; apply Hsmall; lia|].
  apply main_check_fails. fold w h.
  destruct H as [H|H]; [left|right].
  - rewrite (Z.div_small w dest_w) by lia.
    change (Z.max 1 0) with 1. rewrite Z.div_1_r. lia.
  - rewrite (Z.div_small h dest_h) by lia.
    change (Z.max 1 0) with 1. rewrite Z.div_1_r. lia.
Qed.

Lemma upscaling_fails_witness :
  main (solid [0; 0; 0]) 32 16 127 = Raise (SystemExit BadScaleFactor)
  \/ main (solid [0; 0; 0]) 32 16 127 = Raise ZeroDivisionError.
Proof.
  apply (upscaling_fails (solid [0; 0; 0]) 32 16 127). left. vm_compute.
  reflexivity.
Defined.

(** ** End to end on solid images *)

(** C3: a 16x16 solid black RGB image with the defaults (16, 16, 127) gives
    a header of 32 bytes, all 0xFF; a solid white one gives 32 bytes, all
    0x00. *)
Theorem solid_black_and_white :
  (exists hd, main (solid [0; 0; 0]) 16 16 127 = OK hd
     /\ hdr_data hd = replicate 32 255 /\ hdr_data_len hd = 32
     /\ hdr_w hd = 16 /\ hdr_h hd = 16)
  /\ (exists hd, main (solid [255; 255; 255]) 16 16 127 = OK hd
        /\ hdr_data hd = replicate 32 0 /\ hdr_data_len hd = 32
        /\ hdr_w hd = 16 /\ hdr_h hd = 16).
Proof. split; eexists; (split; [vm_compute; reflexivity|]); by repeat split. Qed.

(** ** The bit packer *)

Lemma getitem_lookup {A} (l : list A) i a :
  0 <= i -> l !! Z.to_nat i = Some a -> getitem l i = OK a.
Proof.
  intros Hi Hl. unfold getitem.
  rewrite (decide_False (P := i < 0)) by lia. cbv zeta.
  rewrite decide_False by lia. by rewrite Hl.
Qed.

Lemma pack_bit_eq img hn wn n x y st :
  covers img hn wn -> 0 <= n -> 0 <= y -> 0 <= x < wn ->
  pack_bit img hn n x y st = OK (pack_step (lit img hn n x y) st).
Proof.
  intros Hc Hn Hy Hx. unfold pack_bit, lit, grid_bit. cbv zeta.
  destruct (decide (n * 8 + y < hn)) as [Hlt|Hge].
  - rewrite bool_decide_eq_true_2 by done. cbn [andb].
    destruct (Hc (n * 8 + y) x ltac:(lia) Hx) as [v Hv].
    rewrite Hv. unfold cell in Hv.
    destruct (img !! Z.to_nat (n * 8 + y)) as [row|] eqn:Hrow; [|done].
    rewrite (getitem_lookup _ _ row) by (done || lia). cbn [bind].
    rewrite (getitem_lookup _ _ v) by (done || lia). cbn [bind].
    unfold pack_step. by destruct (decide _).
  - rewrite bool_decide_eq_false_2 by done. cbn [andb bind].
    unfold pack_step. by destruct (decide _).
Qed.

Lemma range3_step1 n : range3 0 n 1 = seqZ 0 n.
Proof.
  unfold range3. replace ((n - 0 + 1 - 1) / 1) with n
    by (rewrite Z.div_1_r; lia).
  rewrite <- (list_fmap_id (seqZ 0 n)) at 2.
  apply list_fmap_ext. intros i k _. simpl. lia.
Qed.

Lemma pack_column_pure (b : Z -> bool) res :
  for_each (seqZ 0 8) (fun y st => OK (pack_step (b y) st)) (packer_at res)
  = OK (packer_at
          (res ++ [big_sum (fun y => if b y then 2 ^ y else 0) (seqZ 0 8)])).
Proof.
  change (seqZ 0 8) with [0; 1; 2; 3; 4; 5; 6; 7].
  cbn [for_each bind big_sum foldr].
  destruct (b 0), (b 1), (b 2), (b 3), (b 4), (b 5), (b 6), (b 7);
    reflexivity.
Qed.

Lemma page_byte_bits (b : Z -> bool) y :
  0 <= y < 8 ->
  Z.testbit (big_sum (fun y => if b y then 2 ^ y else 0) (seqZ 0 8)) y = b y
  /\ 0 <= big_sum (fun y => if b y then 2 ^ y else 0) (seqZ 0 8) < 256.
Proof.
  intros Hy. change (seqZ 0 8) with [0; 1; 2; 3; 4; 5; 6; 7].
  cbn [big_sum foldr].
  assert (y = 0 \/ y = 1 \/ y = 2 \/ y = 3 \/ y = 4 \/ y = 5 \/ y = 6 \/ y = 7)
    as Hcase by lia.
  destruct (b 0) eqn:E0, (b 1) eqn:E1, (b 2) eqn:E2, (b 3) eqn:E3,
           (b 4) eqn:E4, (b 5) eqn:E5, (b 6) eqn:E6, (b 7) eqn:E7;
    (split; [|done]);
    repeat (destruct Hcase as [->|Hcase]; [by rewrite ?E0, ?E1, ?E2, ?E3, ?E4, ?E5, ?E6, ?E7|]);
    subst y; by rewrite E7.
Qed.

Lemma for_each_ext {A S} (l : list A) (f g : A -> S -> result S) s :
  (forall a s, a ∈ l -> f a s = g a s) -> for_each l f s = for_each l g s.
Proof.
  revert s. induction l as [|a l IH]; intros s H; [done|].
  cbn [for_each]. rewrite H by (apply elem_of_cons; by left).
  destruct (g a s); cbn [bind]; [|done].
  apply IH. intros a' s' Hin. apply H. by (apply elem_of_cons; by right).
Qed.

Lemma pack_column img hn wn n x res :
  covers img hn wn -> 0 <= n -> 0 <= x < wn ->
  (st' <- for_each (range3 0 8 1) (pack_bit img hn n x) (packer_at res) ;;
   OK (flush_column st'))
  = OK (packer_at (res ++ [page_byte img hn n x])).
Proof.
  intros Hc Hn Hx. rewrite range3_step1.
  rewrite (for_each_ext _ _ (fun y st => OK (pack_step (lit img hn n x y) st))).
  - rewrite pack_column_pure. reflexivity.
  - intros y st Hy. apply elem_of_seqZ in Hy.
    apply (pack_bit_eq img hn wn); auto with lia.
Qed.

Lemma for_each_append {A} (l : list A) (body : A -> packer -> result packer)
    (g : A -> list Z) res :
  (forall a res, a ∈ l -> body a (packer_at res) = OK (packer_at (res ++ g a))) ->
  for_each l body (packer_at res) = OK (packer_at (res ++ mjoin (g <$> l))).
Proof.
  revert res. induction l as [|a l IH]; intros res H.
  - cbn. by rewrite app_nil_r.
  - cbn [for_each]. rewrite H by (apply elem_of_cons; by left). cbn [bind].
    rewrite IH by (intros; apply H; by (apply elem_of_cons; by right)).
    csimpl. by rewrite <- app_assoc.
Qed.

Lemma join_singletons {A B} (f : A -> B) (l : list A) :
  mjoin ((fun a => [f a]) <$> l) = f <$> l.
Proof. induction l as [|a l IH]; csimpl; [done|]. by rewrite IH. Qed.

Lemma pack_eq img hn hn2 wn :
  covers img hn wn ->
  pack img hn hn2 wn = OK (mjoin (pages img hn hn2 wn)).
Proof.
  intros Hc. unfold pack, range. change packer_init with (packer_at []).
  rewrite (for_each_append _ _ (fun n => page_byte img hn n <$> seqZ 0 wn)).
  - cbn [bind byte_offset packer_at result_array].
    rewrite decide_False by lia. rewrite range3_step1. reflexivity.
  - intros n res Hn. rewrite range3_step1 in Hn. apply elem_of_seqZ in Hn.
    rewrite (for_each_append _ _ (fun x => [page_byte img hn n x])).
    + by rewrite join_singletons, range3_step1.
    + intros x res' Hx. rewrite range3_step1 in Hx. apply elem_of_seqZ in Hx.
      apply (pack_column img hn wn); auto with lia.
Qed.

Lemma pages_length img hn hn2 wn :
  0 <= hn2 -> 0 <= wn ->
  Z.of_nat (length (mjoin (pages img hn hn2 wn))) = wn * hn2.
Proof.
  intros H2 Hw. rewrite length_join, (sum_list_fmap_same (Z.to_nat wn)).
  - unfold pages. rewrite length_fmap, length_seqZ. lia.
  - unfold pages. apply Forall_fmap, Forall_forall. intros n _. simpl.
    by rewrite length_fmap, length_seqZ.
Qed.

Lemma pages_lookup img hn hn2 wn p x :
  0 <= p < hn2 -> 0 <= x < wn ->
  mjoin (pages img hn hn2 wn) !! Z.to_nat (p * wn + x)
  = Some (page_byte img hn p x).
Proof.
  intros Hp Hx.
  replace (Z.to_nat (p * wn + x))
    with (Z.to_nat p * Z.to_nat wn + Z.to_nat x)%nat by lia.
  apply (join_lookup_Some_same_length' (Z.to_nat wn)).
  - unfold pages. apply Forall_fmap, Forall_forall. intros n _. simpl.
    by rewrite length_fmap, length_seqZ.
  - lia.
  - exists (page_byte img hn p <$> seqZ 0 wn). split.
    + unfold pages. rewrite list_lookup_fmap, lookup_seqZ_lt by lia.
      simpl. do 3 f_equal. lia.
    + rewrite list_lookup_fmap, lookup_seqZ_lt by lia. simpl.
      do 2 f_equal. lia.
Qed.

(** C1: for a grid with a cell at every row below [dest_h] and column
    below [dest_w], the packer returns a byte stream whose byte at index
    [p * dest_w + x], for a page [p] below [ceil(dest_h / 8)] and a column
    [x] below [dest_w], is the sum over [y] in 0..7 of [2^y] when row
    [p*8+y] is below [dest_h] and the grid bit at that row and column [x]
    is set.  Bit [y] of that byte is exactly that condition, so bit 0 is
    the top row of the page and the rows past [dest_h] leave zero bits. *)
Theorem pack_layout img dest_h dest_w p x :
  0 <= dest_h -> 0 <= dest_w ->
  covers img dest_h dest_w ->
  0 <= p < ceil_div dest_h 8 -> 0 <= x < dest_w ->
  (dest_h + 8 - 1) / 8 = ceil_div dest_h 8
  /\ exists bs,
       pack img dest_h ((dest_h + 8 - 1) / 8) dest_w = OK bs
       /\ bs !! Z.to_nat (p * dest_w + x)
          = Some (big_sum
                    (fun y => if bool_decide (p * 8 + y < dest_h)
                                 && grid_bit img (p * 8 + y) x
                              then 2 ^ y else 0)
                    (seqZ 0 8))
       /\ forall b, bs !! Z.to_nat (p * dest_w + x) = Some b ->
            0 <= b < 256
            /\ forall y, 0 <= y < 8 ->
                 Z.testbit b y
                 = bool_decide (p * 8 + y < dest_h)
                   && grid_bit img (p * 8 + y) x.
Proof.
  intros Hh Hw Hc Hp Hx.
  assert (Hpages : (dest_h + 8 - 1) / 8 = ceil_div dest_h 8)
    by (by apply ceil_div_add).
  split; [done|]. exists (mjoin (pages img dest_h ((dest_h + 8 - 1) / 8) dest_w)).
  split; [by apply pack_eq|].
  rewrite pages_lookup by lia. split; [reflexivity|].
  intros b [= <-]. unfold page_byte.
  split.
  - apply (page_byte_bits (lit img dest_h p x) 0). lia.
  - intros y Hy. by apply (page_byte_bits (lit img dest_h p x) y).
Qed.

Lemma pack_layout_witness :
  exists bs,
    pack [[1; 0]; [0; 1]; [1; 1]] 3 ((3 + 8 - 1) / 8) 2 = OK bs
    /\ bs !! Z.to_nat (0 * 2 + 1)
       = Some (big_sum
                 (fun y => if bool_decide (0 * 8 + y < 3)
                              && grid_bit [[1; 0]; [0; 1]; [1; 1]] (0 * 8 + y) 1
                           then 2 ^ y else 0)
                 (seqZ 0 8))
    /\ forall b, bs !! Z.to_nat (0 * 2 + 1) = Some b ->
         0 <= b < 256
         /\ forall y, 0 <= y < 8 ->
              Z.testbit b y
              = bool_decide (0 * 8 + y < 3)
                && grid_bit [[1; 0]; [0; 1]; [1; 1]] (0 * 8 + y) 1.
Proof.
  apply (pack_layout [[1; 0]; [0; 1]; [1; 1]] 3 2 0 1); try lia.
  - intros r c Hr Hc.
    assert (r = 0 \/ r = 1 \/ r = 2) as [-> | [-> | ->]] by lia;
      (assert (c = 0 \/ c = 1) as [-> | ->] by lia); by eexists.
  - vm_compute. split; [discriminate|reflexivity].
Defined.

(** ** The block mean *)

Lemma fold_left_add_acc l a : fold_left Z.add l a = a + sum l.
Proof.
  unfold sum. revert a. induction l as [|b l IH]; intros a; cbn [fold_left].
  - lia.
  - rewrite (IH (a + b)), (IH (0 + b)). lia.
Qed.

Lemma sum_cons a l : sum (a :: l) = a + sum l.
Proof. unfold sum at 1. cbn [fold_left]. rewrite fold_left_add_acc. lia. Qed.

Lemma sum_app l1 l2 : sum (l1 ++ l2) = sum l1 + sum l2.
Proof. unfold sum at 1. rewrite fold_left_app, fold_left_add_acc. reflexivity. Qed.

Lemma sum_fmap {A} (f : A -> Z) (l : list A) :
  sum (f <$> l) = foldr (fun a acc => f a + acc) 0 l.
Proof.
  induction l as [|a l IH]; [done|]. csimpl. by rewrite sum_cons, IH.
Qed.

Lemma sum_replicate_0 k : sum (replicate k 0) = 0.
Proof.
  induction k as [|k IH]; [done|]. cbn [replicate]. by rewrite sum_cons, IH.
Qed.

Lemma sum_join_rows {A B} (f : B -> A -> Z) (ly : list B) (lx : list A) :
  sum (mjoin ((fun b => f b <$> lx) <$> ly))
  = foldr (fun b acc => foldr (fun a acc' => f b a + acc') 0 lx + acc) 0 ly.
Proof.
  induction ly as [|b ly IH]; [done|]. csimpl.
  by rewrite sum_app, sum_fmap, IH.
Qed.

Lemma setitem_middle (pre post : list Z) old v :
  setitem (pre ++ old :: post) (Z.of_nat (length pre)) v
  = OK (pre ++ v :: post).
Proof.
  unfold setitem. rewrite (decide_False (P := _ < 0)) by lia. cbv zeta.
  rewrite decide_True by (rewrite length_app; cbn [length]; lia).
  rewrite Nat2Z.id. f_equal.
  rewrite insert_app_r_alt by lia. by rewrite Nat.sub_diag.
Qed.

(** One row of the window: the values go to the next free slots of
    [vpx]. *)
Lemma fill_row {A} (l : list A) (g : A -> result Z) (f : A -> Z) pre k :
  (forall a, a ∈ l -> g a = OK (f a)) ->
  for_each l (fun a '(vpx, idx) =>
                v <- g a ;;
                vpx' <- setitem vpx idx v ;;
                OK (vpx', idx + 1))
    (pre ++ replicate (length l + k) 0, Z.of_nat (length pre))
  = OK ((pre ++ (f <$> l)) ++ replicate k 0,
        Z.of_nat (length (pre ++ (f <$> l)))).
Proof.
  revert pre. induction l as [|a l IH]; intros pre H.
  - cbn. by rewrite !app_nil_r.
  - cbn [for_each length Nat.add replicate].
    rewrite H by (apply elem_of_cons; by left). cbn [bind].
    rewrite setitem_middle. cbn [bind].
    replace (pre ++ f a :: replicate (length l + k) 0)
      with ((pre ++ [f a]) ++ replicate (length l + k) 0)
      by (by rewrite <- app_assoc).
    replace (Z.of_nat (length pre) + 1) with (Z.of_nat (length (pre ++ [f a])))
      by (rewrite length_app; cbn [length]; lia).
    rewrite IH by (intros; apply H; apply elem_of_cons; by right).
    csimpl. by rewrite <- !app_assoc.
Qed.

Lemma fill_rows {A B} (ly : list B) (lx : list A)
    (g : B -> A -> result Z) (f : B -> A -> Z) pre k :
  (forall b a, b ∈ ly -> a ∈ lx -> g b a = OK (f b a)) ->
  for_each ly (fun b st =>
                 for_each lx (fun a '(vpx, idx) =>
                                v <- g b a ;;
                                vpx' <- setitem vpx idx v ;;
                                OK (vpx', idx + 1)) st)
    (pre ++ replicate (length ly * length lx + k) 0, Z.of_nat (length pre))
  = OK ((pre ++ mjoin ((fun b => f b <$> lx) <$> ly)) ++ replicate k 0,
        Z.of_nat (length (pre ++ mjoin ((fun b => f b <$> lx) <$> ly)))).
Proof.
  revert pre. induction ly as [|b ly IH]; intros pre H.
  - cbn. by rewrite !app_nil_r.
  - cbn [for_each length Nat.mul].
    rewrite <- Nat.add_assoc.
    rewrite (fill_row lx (g b) (f b))
      by (intros; apply H; [apply elem_of_cons; by left|done]).
    cbn [bind].
    rewrite IH by (intros; apply H; [apply elem_of_cons; by right|done]).
    csimpl. by rewrite <- !app_assoc.
Qed.

Lemma range_seqZ n : range n = seqZ 0 n.
Proof. apply range3_step1. Qed.

Lemma block_mean_eq im fl sx sy x y (val : Z -> Z -> Z) :
  0 < sx -> 0 < sy ->
  (forall xx yy, 0 <= xx < sx -> 0 <= yy < sy ->
     pixel_value im fl (x + xx) (y + yy) = OK (val (x + xx) (y + yy))) ->
  block_mean im fl sx sy x y = OK (block_sum val sx sy x y / (sx * sy)).
Proof.
  intros Hsx Hsy Hval. unfold block_mean. rewrite !range_seqZ.
  replace (Z.to_nat (sx * sy))
    with (length (seqZ 0 sy) * length (seqZ 0 sx) + 0)%nat
    by (rewrite !length_seqZ; lia).
  pose proof (fill_rows (seqZ 0 sy) (seqZ 0 sx)
                (fun yy xx => pixel_value im fl (x + xx) (y + yy))
                (fun yy xx => val (x + xx) (y + yy)) [] 0%nat) as Hfill.
  cbn [app length] in Hfill. cbv beta in Hfill.
  change (Z.of_nat 0) with 0 in Hfill. rewrite Hfill.
  - cbn [bind fst replicate]. rewrite app_nil_r, sum_join_rows.
    unfold floordiv. rewrite decide_False by lia. reflexivity.
  - intros yy xx Hy Hx. apply elem_of_seqZ in Hy, Hx. apply Hval; lia.
Qed.

(** ** The downscaling loops *)

Lemma for_each_invariant {A St} (I : nat -> St -> Prop) (l : list A)
    (body : A -> St -> result St) s0 :
  I 0%nat s0 ->
  (forall i a s, l !! i = Some a -> I i s ->
     exists s', body a s = OK s' /\ I (S i) s') ->
  exists s', for_each l body s0 = OK s' /\ I (length l) s'.
Proof.
  revert I s0. induction l as [|a l IH]; intros I s0 H0 Hstep.
  - by exists s0.
  - destruct (Hstep 0%nat a s0 eq_refl H0) as (s1 & E1 & H1).
    destruct (IH (fun i => I (S i)) s1 H1) as (s' & E & H').
    { intros i b s Hl Hi. apply (Hstep (S i) b s Hl Hi). }
    exists s'. cbn [for_each]. rewrite E1. by cbn.
Qed.

Lemma for_each_preserves {A St} (P : St -> Prop) (l : list A)
    (body : A -> St -> result St) s s' :
  (forall a s s', P s -> body a s = OK s' -> P s') ->
  P s -> for_each l body s = OK s' -> P s'.
Proof.
  intros Hbody. revert s. induction l as [|a l IH]; intros s Hs H.
  - cbn in H. by injection H as <-.
  - cbn [for_each] in H. destruct (body a s) as [s1|e] eqn:E; [|done].
    cbn [bind] in H. apply (IH s1); [by apply (Hbody a s)|done].
Qed.

Lemma range3_exact n s :
  0 <= n -> 1 <= s -> range3 0 (n * s) s = (fun k => k * s) <$> seqZ 0 n.
Proof.
  intros Hn Hs. unfold range3.
  replace ((n * s - 0 + s - 1) / s) with n.
  - apply list_fmap_ext. intros i k _. lia.
  - apply Z.div_unique with (r := s - 1); lia.
Qed.

Lemma lookup_steps n s (i : nat) a :
  ((fun k => k * s) <$> seqZ 0 n) !! i = Some a ->
  a = Z.of_nat i * s /\ Z.of_nat i < n.
Proof.
  rewrite list_lookup_fmap. intros H.
  destruct (seqZ 0 n !! i) as [k|] eqn:E; [|done].
  apply lookup_seqZ in E as [-> ?]. injection H as <-. split; [f_equal|]; lia.
Qed.

Lemma getitem_elem {A} (l : list A) i a : getitem l i = OK a -> a ∈ l.
Proof.
  unfold getitem. cbv zeta. destruct (decide (_ < 0)); [done|].
  destruct (l !! _) as [b|] eqn:E; [|done].
  intros [= <-]. by apply list_elem_of_lookup_2 in E.
Qed.

Lemma setitem_length {A} (l l' : list A) i v :
  setitem l i v = OK l' -> length l' = length l.
Proof.
  unfold setitem. cbv zeta. destruct (decide _); [|done].
  intros [= <-]. apply length_insert.
Qed.

Lemma setitem_nat {A} (l : list A) (i : nat) v :
  (i < length l)%nat -> setitem l (Z.of_nat i) v = OK (<[i := v]> l).
Proof.
  intros Hi. unfold setitem.
  rewrite (decide_False (P := _ < 0)) by lia. cbv zeta.
  rewrite decide_True by lia. by rewrite Nat2Z.id.
Qed.

Lemma setitem2_dims img i j v img' rows cols :
  setitem2 img i j v = OK img' ->
  grid_dims img rows cols -> grid_dims img' rows cols.
Proof.
  unfold setitem2. intros H [Hlen Hall].
  destruct (getitem img i) as [row|] eqn:Hrow; [|done]. cbn [bind] in H.
  destruct (setitem row j v) as [row'|] eqn:Hrow'; [|done]. cbn [bind] in H.
  pose proof (setitem_length _ _ _ _ H) as Hl.
  unfold setitem in H. cbv zeta in H. destruct (decide _); [|done].
  injection H as <-. split; [by rewrite length_insert|].
  apply Forall_insert; [done|].
  rewrite (setitem_length _ _ _ _ Hrow').
  apply getitem_elem in Hrow. by apply (proj1 (Forall_forall _ _) Hall).
Qed.

Lemma setitem2_eq img rows cols (i j : nat) v :
  grid_dims img rows cols -> (i < rows)%nat -> (j < cols)%nat ->
  exists img',
    setitem2 img (Z.of_nat i) (Z.of_nat j) v = OK img'
    /\ grid_dims img' rows cols
    /\ forall r c, (c < cols)%nat ->
         cell img' r c
         = if decide (r = i /\ c = j) then Some v else cell img r c.
Proof.
  intros [Hlen Hall] Hi Hj.
  destruct (lookup_lt_is_Some_2 img i ltac:(lia)) as [row Hrow].
  assert (length row = cols) as Hrl
    by (by apply (proj1 (Forall_lookup _ _) Hall i row)).
  exists (<[i := <[j := v]> row]> img). split; [|split].
  - unfold setitem2.
    rewrite (getitem_lookup img _ row) by (lia || by rewrite Nat2Z.id).
    cbn [bind]. rewrite setitem_nat by lia. cbn [bind].
    by rewrite setitem_nat by lia.
  - split; [by rewrite length_insert|].
    apply Forall_insert; [done|]. by rewrite length_insert.
  - intros r c Hc. unfold cell.
    destruct (decide (r = i)) as [->|Hne].
    + rewrite list_lookup_insert_eq by lia. rewrite Hrow.
      destruct (decide (c = j)) as [->|Hcj].
      * rewrite decide_True by done. apply list_lookup_insert_eq. lia.
      * rewrite decide_False by tauto. by apply list_lookup_insert_ne.
    + rewrite decide_False by tauto. by rewrite list_lookup_insert_ne.
Qed.

Lemma downscale_dims im fl sx sy thr img :
  downscale im fl sx sy thr = OK img ->
  grid_dims img (Z.to_nat (Z.of_N (height im))) (Z.to_nat (Z.of_N (width im))).
Proof.
  unfold downscale. cbv zeta. intros Hd.
  set (P := fun g => grid_dims g (Z.to_nat (Z.of_N (height im)))
                               (Z.to_nat (Z.of_N (width im)))).
  refine (for_each_preserves P _ _ _ _ _ _ Hd); clear Hd; unfold P.
  - intros y img1 img2 H1 Hrow.
    refine (for_each_preserves P _ _ _ _ _ H1 Hrow); unfold P.
    intros x img3 img4 H3 H.
    destruct (block_mean im fl sx sy x y) as [r|]; [|done]. cbn [bind] in H.
    destruct (decide (r > thr)); [|by injection H as <-].
    destruct (floordiv y sy) as [i|]; [|done]. cbn [bind] in H.
    destruct (floordiv x sx) as [j|]; [|done]. cbn [bind] in H.
    by apply (setitem2_dims _ _ _ _ _ _ _ H).
  - split; [by rewrite length_replicate|].
    apply Forall_replicate. by rewrite length_replicate.
Qed.

Lemma cell_zeros rows cols r c :
  (r < rows)%nat -> (c < cols)%nat ->
  cell (replicate rows (replicate cols 0)) r c = Some 0.
Proof.
  intros Hr Hc. unfold cell. rewrite lookup_replicate_2 by done.
  by apply lookup_replicate_2.
Qed.

Section Downscale.
Variables (im : image) (fl : flags) (sx sy thr wn hn : Z).
Variable val : Z -> Z -> Z.
Hypothesis Hsx : 1 <= sx.
Hypothesis Hsy : 1 <= sy.
Hypothesis Hwn : 0 <= wn.
Hypothesis Hhn : 0 <= hn.
Hypothesis Hw : Z.of_N (width im) = wn * sx.
Hypothesis Hh : Z.of_N (height im) = hn * sy.
Hypothesis Hval : forall x y,
  0 <= x < Z.of_N (width im) -> 0 <= y < Z.of_N (height im) ->
  pixel_value im fl x y = OK (val x y).

Lemma block_mean_avg (i j : nat) :
  Z.of_nat i < hn -> Z.of_nat j < wn ->
  block_mean im fl sx sy (Z.of_nat j * sx) (Z.of_nat i * sy)
  = OK (block_avg val sx sy (Z.of_nat j) (Z.of_nat i)).
Proof using All.
  intros Hi Hj. apply block_mean_eq; [lia|lia|].
  intros xx yy Hxx Hyy. apply Hval; rewrite ?Hw, ?Hh; nia.
Qed.

Lemma downscale_pixel (i j : nat) img :
  Z.of_nat i < hn -> Z.of_nat j < wn ->
  grid_state im val sx sy thr hn wn i j img ->
  exists img',
    (r <- block_mean im fl sx sy (Z.of_nat j * sx) (Z.of_nat i * sy) ;;
     if decide (r > thr) then
       i' <- floordiv (Z.of_nat i * sy) sy ;;
       j' <- floordiv (Z.of_nat j * sx) sx ;;
       setitem2 img i' j' 1
     else OK img) = OK img'
    /\ grid_state im val sx sy thr hn wn i (S j) img'.
Proof using All.
  intros Hi Hj [Hdims Hcells]. rewrite block_mean_avg by done. cbn [bind].
  destruct (decide (block_avg val sx sy (Z.of_nat j) (Z.of_nat i) > thr))
    as [Hgt|Hle].
  - unfold floordiv. rewrite !decide_False by lia. cbn [bind].
    rewrite !Z.div_mul by lia.
    destruct (setitem2_eq img _ _ i j 1 Hdims) as (img' & E & Hd' & Hc');
      [nia|nia|].
    exists img'. split; [done|]. split; [done|].
    intros r c Hr Hc. rewrite Hc' by nia. rewrite Hcells by done.
    destruct (decide (r = i /\ c = j)) as [[-> ->]|Hne].
    + rewrite decide_True by lia. unfold threshold_bit.
      by rewrite decide_True.
    + do 2 f_equal. repeat case_decide; (done || lia).
  - exists img. split; [done|]. split; [done|].
    intros r c Hr Hc. rewrite Hcells by done. f_equal.
    destruct (decide (r = i /\ c = j)) as [[-> ->]|Hne].
    + rewrite decide_False by lia. rewrite decide_True by lia.
      unfold threshold_bit. by rewrite decide_False.
    + repeat case_decide; (done || lia).
Qed.

Lemma downscale_row (i : nat) img :
  Z.of_nat i < hn ->
  grid_state im val sx sy thr hn wn i 0%nat img ->
  exists img',
    for_each (range3 0 (Z.of_N (width im)) sx)
      (fun x img =>
         r <- block_mean im fl sx sy x (Z.of_nat i * sy) ;;
         if decide (r > thr) then
           i' <- floordiv (Z.of_nat i * sy) sy ;;
           j' <- floordiv x sx ;;
           setitem2 img i' j' 1
         else OK img) img = OK img'
    /\ grid_state im val sx sy thr hn wn (S i) 0%nat img'.
Proof using All.
  intros Hi Hst.
  replace (range3 0 (Z.of_N (width im)) sx)
    with ((fun k => k * sx) <$> seqZ 0 wn)
    by (rewrite Hw; symmetry; by apply range3_exact).
  match goal with
  | |- exists img', for_each ?l ?body ?s = _ /\ _ =>
      pose proof (for_each_invariant (fun j => grid_state im val sx sy thr hn wn i j) l body s Hst)
        as Hinv
  end.
  destruct Hinv as (img' & E & Hend).
  { intros j x img1 Hx Hj. apply lookup_steps in Hx as [-> Hlt].
    by apply downscale_pixel. }
  exists img'. split; [exact E|].
  - rewrite length_fmap, length_seqZ in Hend.
    destruct Hend as [Hd Hc]. split; [done|].
    intros r c Hr Hcw. rewrite Hc by done. do 2 f_equal.
    repeat case_decide; (done || lia).
Qed.

Lemma downscale_grid :
  exists img,
    downscale im fl sx sy thr = OK img
    /\ grid_state im val sx sy thr hn wn (Z.to_nat hn) 0%nat img.
Proof using All.
  unfold downscale. cbv zeta.
  replace (range3 0 (Z.of_N (height im)) sy)
    with ((fun k => k * sy) <$> seqZ 0 hn)
    by (rewrite Hh; symmetry; by apply range3_exact).
  match goal with
  | |- exists img', for_each ?l ?body ?s = _ /\ _ =>
      pose proof (for_each_invariant (fun i => grid_state im val sx sy thr hn wn i 0%nat) l body s)
        as Hinv
  end.
  destruct Hinv as (img' & E & Hend).
  - split.
    + split; [by rewrite length_replicate|].
      apply Forall_replicate. by rewrite length_replicate.
    + intros r c Hr Hc. rewrite cell_zeros by nia.
      by rewrite decide_False by lia.
  - intros i y img1 Hy Hst. apply lookup_steps in Hy as [-> Hlt].
    by apply downscale_row.
  - exists img'. split; [exact E|].
    by rewrite length_fmap, length_seqZ in Hend.
Qed.
End Downscale.



(** ** The whole conversion *)

Lemma dims_covers img rows cols hn wn :
  grid_dims img rows cols ->
  hn <= Z.of_nat rows -> wn <= Z.of_nat cols ->
  covers img hn wn.
Proof.
  intros [Hlen Hall] Hh Hw r c Hr Hc. unfold cell.
  destruct (lookup_lt_is_Some_2 img (Z.to_nat r) ltac:(lia)) as [row Hrow].
  rewrite Hrow. apply lookup_lt_is_Some_2.
  rewrite (proj1 (Forall_lookup _ _) Hall _ _ Hrow). lia.
Qed.

Lemma quotient_le n s : 0 <= n -> 1 <= s -> 0 <= n / s <= n.
Proof.
  intros Hn Hs. split; [apply Z.div_pos; lia|].
  apply Z.div_le_upper_bound; nia.
Qed.

(** The bytes [main] hands to [save_to_h] once the downscaler has returned
    a grid. *)
Lemma main_pack im fl sx sy thr img :
  1 <= sx -> 1 <= sy ->
  downscale im fl sx sy thr = OK img ->
  let hn := Z.of_N (height im) / sy in
  let wn := Z.of_N (width im) / sx in
  pack img hn ((hn + 8 - 1) / 8) wn
  = OK (mjoin (pages img hn ((hn + 8 - 1) / 8) wn))
  /\ Z.of_nat (length (mjoin (pages img hn ((hn + 8 - 1) / 8) wn)))
     = wn * ceil_div hn 8.
Proof.
  intros Hsx Hsy Hd hn wn.
  pose proof (quotient_le (Z.of_N (height im)) sy ltac:(lia) Hsy) as Hhn.
  pose proof (quotient_le (Z.of_N (width im)) sx ltac:(lia) Hsx) as Hwn.
  fold hn in Hhn. fold wn in Hwn. split.
  - apply pack_eq. apply (dims_covers _ _ _ _ _ (downscale_dims _ _ _ _ _ _ Hd));
      lia.
  - rewrite pages_length; [|apply Z.div_pos; lia|lia].
    by rewrite ceil_div_add.
Qed.

(** C7: when [main] reaches [save_to_h], the byte stream it writes has
    exactly [dest_w * ceil(dest_h / 8)] bytes, and that is the length
    written as [_DATA_LEN]. *)
Theorem byte_stream_length im dest_w dest_h thr hd :
  main im dest_w dest_h thr = OK hd ->
  Z.of_nat (length (hdr_data hd)) = dest_w * ceil_div dest_h 8
  /\ hdr_data_len hd = dest_w * ceil_div dest_h 8
  /\ hdr_w hd = dest_w /\ hdr_h hd = dest_h.
Proof.
  intros H.
  destruct (decide (dest_w = 0 \/ dest_h = 0)) as [Hz|Hz].
  { by rewrite main_zero_dest in H. }
  rewrite main_unfold in H by tauto.
  destruct (decide _) as [|Hq]; [done|].
  destruct (detect_mode im) as [fl|]; [|done]. cbn [bind] in H.
  destruct (downscale im fl _ _ thr) as [img|] eqn:Hd; [|done].
  cbn [bind] in H.
  destruct (fun H1 H2 => main_pack im fl _ _ thr img H1 H2 Hd) as [Hp Hl];
    [lia|lia|].
  rewrite Hp in H. cbn [bind] in H. injection H as <-.
  cbn [save_to_h hdr_data hdr_data_len hdr_w hdr_h]. rewrite Hl.
  assert (Z.of_N (height im) / Z.max 1 (Z.of_N (height im) / dest_h) = dest_h
          /\ Z.of_N (width im) / Z.max 1 (Z.of_N (width im) / dest_w) = dest_w)
    as [-> ->] by lia.
  done.
Qed.

Lemma byte_stream_length_witness :
  Z.of_nat (length (hdr_data (save_to_h (replicate 32 255) 16 16)))
  = 16 * ceil_div 16 8
  /\ hdr_data_len (save_to_h (replicate 32 255) 16 16) = 16 * ceil_div 16 8
  /\ hdr_w (save_to_h (replicate 32 255) 16 16) = 16
  /\ hdr_h (save_to_h (replicate 32 255) 16 16) = 16.
Proof.
  apply (byte_stream_length (solid [0; 0; 0]) 16 16 127).
  vm_compute. reflexivity.
Defined.

(** [main] returns a header whenever the windows tile the image exactly,
    the mode is supported and every pixel has a value. *)
Lemma main_completes im dest_w dest_h thr sx sy fl val :
  0 < dest_w -> 0 < dest_h -> 1 <= sx -> 1 <= sy ->
  Z.of_N (width im) = dest_w * sx -> Z.of_N (height im) = dest_h * sy ->
  detect_mode im = OK fl ->
  (forall x y,
     0 <= x < Z.of_N (width im) -> 0 <= y < Z.of_N (height im) ->
     pixel_value im fl x y = OK (val x y)) ->
  exists img,
    downscale im fl sx sy thr = OK img
    /\ main im dest_w dest_h thr
       = OK (save_to_h
               (mjoin (pages img dest_h ((dest_h + 8 - 1) / 8) dest_w))
               dest_w dest_h).
Proof.
  intros Hdw Hdh Hsx Hsy Hw Hh Hm Hval.
  destruct (downscale_grid im fl sx sy thr dest_w dest_h val)
    as (img & E & _); try done; try lia.
  exists img. split; [done|].
  assert (Z.of_N (width im) / dest_w = sx) as E1
    by (rewrite Hw, Z.mul_comm; apply Z.div_mul; lia).
  assert (Z.of_N (height im) / dest_h = sy) as E2
    by (rewrite Hh, Z.mul_comm; apply Z.div_mul; lia).
  assert (Z.of_N (width im) / sx = dest_w) as E3
    by (rewrite Hw; apply Z.div_mul; lia).
  assert (Z.of_N (height im) / sy = dest_h) as E4
    by (rewrite Hh; apply Z.div_mul; lia).
  rewrite main_unfold by lia. rewrite E1, E2, !Z.max_r, E3, E4 by lia.
  rewrite decide_False by lia. rewrite Hm. cbn [bind]. rewrite E. cbn [bind].
  destruct (main_pack im fl sx sy thr img Hsx Hsy E) as [Hp _].
  rewrite E3, E4 in Hp. by rewrite Hp.
Qed.

(** * Further properties of the pipeline *)

(** ** scale_crop *)

Lemma scale_crop_OK_range v scale r :
  scale_crop v scale = OK r -> 0 <= r <= 255.
Proof.
  unfold scale_crop, floordiv. destruct (decide (scale = 0)); [done|].
  cbn [bind]. repeat case_decide; intros [= <-]; lia.
Qed.

(** X1: [scale_crop] fails only for the scale 0, with ZeroDivisionError, and
    for every other scale, negative ones included, returns a value in
    0..255. *)
Theorem scale_crop_total v scale :
  match scale_crop v scale with
  | OK r => scale <> 0 /\ 0 <= r <= 255
  | Raise e => scale = 0 /\ e = ZeroDivisionError
  end.
Proof.
  destruct (scale_crop v scale) as [r|e] eqn:E.
  - split; [|by apply (scale_crop_OK_range v scale)].
    intros ->. by vm_compute in E.
  - unfold scale_crop, floordiv in E.
    destruct (decide (scale = 0)); [by injection E as <-|].
    cbn [bind] in E. by repeat case_decide.
Qed.

Lemma ceil_div_unique v d q :
  0 < d -> d * (q - 1) < v <= d * q -> ceil_div v d = q.
Proof.
  intros Hd Hq. pose proof (ceil_div_spec v d Hd). nia.
Qed.

Lemma ceil_div_mono v1 v2 d :
  0 < d -> v1 <= v2 -> ceil_div v1 d <= ceil_div v2 d.
Proof.
  intros Hd Hv. pose proof (ceil_div_spec v1 d Hd).
  pose proof (ceil_div_spec v2 d Hd). nia.
Qed.

(** X2: For a positive scale, [scale_crop] preserves the order of its
    inputs. *)
Theorem scale_crop_monotone v1 v2 scale r1 r2 :
  0 < scale -> v1 <= v2 ->
  scale_crop v1 scale = OK r1 -> scale_crop v2 scale = OK r2 ->
  r1 <= r2.
Proof.
  intros Hs Hv. rewrite !scale_crop_clamp by done.
  intros [= <-] [= <-].
  pose proof (ceil_div_mono v1 v2 scale Hs Hv). unfold clamp. lia.
Qed.

Lemma scale_crop_monotone_witness : 0 <= 1.
Proof.
  apply (scale_crop_monotone 0 1 256 0 1); (lia || reflexivity).
Defined.

(** A product [255 * c] of a channel value scales back to [c]: the
    ceiling absorbs the missing [c / 256]. *)
Lemma scale_crop_255 c :
  channel c -> scale_crop (255 * c) default_scale = OK c.
Proof.
  intros Hc. unfold channel in Hc. unfold default_scale.
  rewrite scale_crop_clamp by lia.
  rewrite (ceil_div_unique _ _ c) by lia. unfold clamp. f_equal. lia.
Qed.

(** ** rgba2rgb *)

(** X3: A fully opaque pixel keeps its colour exactly, and a fully
    transparent one becomes the white background, whatever its colour. *)
Theorem rgba2rgb_opaque_transparent r g b :
  channel r -> channel g -> channel b ->
  rgba2rgb [r; g; b; 255] default_bg = OK [r; g; b]
  /\ rgba2rgb [r; g; b; 0] default_bg = OK [255; 255; 255].
Proof.
  intros Hr Hg Hb. split.
  - unfold rgba2rgb, default_bg. getitems.
    replace ((255 - 255) * 255 + 255 * r) with (255 * r) by lia.
    replace ((255 - 255) * 255 + 255 * g) with (255 * g) by lia.
    replace ((255 - 255) * 255 + 255 * b) with (255 * b) by lia.
    by rewrite !scale_crop_255.
  - unfold rgba2rgb, default_bg. getitems.
    replace ((255 - 0) * 255 + 0 * r) with (255 * 255) by lia.
    replace ((255 - 0) * 255 + 0 * g) with (255 * 255) by lia.
    replace ((255 - 0) * 255 + 0 * b) with (255 * 255) by lia.
    reflexivity.
Qed.

Lemma rgba2rgb_opaque_transparent_witness :
  rgba2rgb [12; 200; 255; 255] default_bg = OK [12; 200; 255]
  /\ rgba2rgb [12; 200; 255; 0] default_bg = OK [255; 255; 255].
Proof. apply rgba2rgb_opaque_transparent; unfold channel; lia. Defined.

(** X4: With the default background, [rgba2rgb] returns exactly when the
    pixel has at least four components, and then three values in 0..255,
    whatever integers the components are; with fewer components it raises
    IndexError. *)
Theorem rgba2rgb_total c :
  match rgba2rgb c default_bg with
  | OK out => (4 <= length c)%nat /\ length out = 3%nat /\ Forall channel out
  | Raise e => (length c < 4)%nat /\ e = IndexError
  end.
Proof.
  destruct c as [|r [|g [|b [|a rest]]]];
    try (vm_compute; split; [lia|reflexivity]).
  unfold rgba2rgb, default_bg, default_scale. getitems.
  rewrite !scale_crop_clamp by lia. cbn [bind].
  split; [cbn [length]; lia|]. split; [done|].
  repeat constructor; apply clamp_range.
Qed.

(** ** color_invert and get_y *)

(** X5: Inverting twice gives back the first three components; a fourth one
    is dropped by the first inversion, and a colour with fewer than three
    components raises IndexError. *)
Theorem color_invert_twice c :
  (c' <- color_invert c ;; color_invert c')
  = if decide (3 <= length c)%nat then OK (take 3 c) else Raise IndexError.
Proof.
  destruct c as [|r [|g [|b rest]]]; try reflexivity.
  rewrite decide_True by (cbn [length]; lia).
  change (color_invert (r :: g :: b :: rest))
    with (OK [255 - r; 255 - g; 255 - b]).
  cbn [bind take]. rewrite color_invert_eq.
  do 2 f_equal; [lia|]. f_equal; [lia|]. f_equal. lia.
Qed.

(** X6: The weights 76, 150 and 29 add up to 255, so the luma of a gray
    colour is its gray value. *)
Theorem get_y_gray c : channel c -> get_y [c; c; c] = OK c.
Proof.
  intros Hc. unfold get_y. getitems.
  replace (76 * c + 150 * c + 29 * c) with (255 * c) by lia.
  by apply scale_crop_255.
Qed.

Lemma get_y_gray_witness : get_y [200; 200; 200] = OK 200.
Proof. apply get_y_gray. unfold channel. lia. Defined.

(** X7: The luma never decreases when a channel increases. *)
Theorem get_y_monotone r1 g1 b1 r2 g2 b2 y1 y2 :
  r1 <= r2 -> g1 <= g2 -> b1 <= b2 ->
  get_y [r1; g1; b1] = OK y1 -> get_y [r2; g2; b2] = OK y2 ->
  y1 <= y2.
Proof.
  intros Hr Hg Hb. rewrite !get_y_eq. intros [= <-] [= <-].
  pose proof (ceil_div_mono (76 * r1 + 150 * g1 + 29 * b1)
                (76 * r2 + 150 * g2 + 29 * b2) 256 ltac:(lia) ltac:(lia)).
  unfold clamp. lia.
Qed.

Lemma get_y_monotone_witness : 76 <= 226.
Proof.
  apply (get_y_monotone 255 0 0 255 255 0 76 226); (lia || reflexivity).
Defined.

(** ** The value of a pixel and the mean of a window *)

(** X8: In RGB mode a gray pixel [(c, c, c)] has the value [255 - c]: dark
    pixels get high values, so with the default threshold 127 exactly the
    grays below 128 count as lit. *)
Theorem pixel_value_gray im fl x y c :
  has_alpha fl = false -> rgb_mode fl = true ->
  load im x y = OK (STuple [c; c; c]) ->
  channel c ->
  pixel_value im fl x y = OK (255 - c)
  /\ (255 - c > 127 <-> c < 128).
Proof.
  intros Ha Hm Hl Hc. split; [|lia].
  unfold pixel_value, pixel_rgb. rewrite Ha, Hm, Hl. cbn [bind as_seq].
  rewrite color_invert_eq. cbn [bind]. apply get_y_gray.
  unfold channel in *. lia.
Qed.

Lemma pixel_value_gray_witness :
  pixel_value two_grays
    {| has_alpha := false; rgb_mode := true; i_mode := 65536 |} 3 1
  = OK (255 - 127)
  /\ (255 - 127 > 127 <-> 127 < 128).
Proof.
  apply (pixel_value_gray two_grays _ 3 1 127); try reflexivity.
  unfold channel. lia.
Defined.

Lemma pixel_value_range im fl x y v :
  pixel_value im fl x y = OK v -> 0 <= v <= 255.
Proof.
  unfold pixel_value.
  destruct (pixel_rgb im fl x y) as [rgb|]; [|done]. cbn [bind].
  destruct (color_invert rgb) as [inv|]; [|done]. cbn [bind].
  unfold get_y.
  destruct (getitem inv 0); [|done]. cbn [bind].
  destruct (getitem inv 1); [|done]. cbn [bind].
  destruct (getitem inv 2); [|done]. cbn [bind].
  apply scale_crop_OK_range.
Qed.

Lemma sum_bounds (l : list Z) :
  Forall channel l -> 0 <= sum l <= 255 * Z.of_nat (length l).
Proof.
  induction 1 as [|a l Ha _ IH]; [done|].
  rewrite sum_cons. unfold channel in Ha. cbn [length]. lia.
Qed.

Lemma setitem_Forall {A} (P : A -> Prop) (l l' : list A) i v :
  setitem l i v = OK l' -> Forall P l -> P v -> Forall P l'.
Proof.
  unfold setitem. cbv zeta. destruct (decide _); [|done].
  intros [= <-] Hl Hv. by apply Forall_insert.
Qed.

(** X9: Whatever the image and the mode, a window mean that is returned lies
    in 0..255. *)
Theorem block_mean_range im fl sx sy x y r :
  block_mean im fl sx sy x y = OK r -> 0 <= r <= 255.
Proof.
  unfold block_mean. cbv zeta.
  set (n := Z.to_nat (sx * sy)).
  set (P := fun st : list Z * Z =>
              Forall channel (fst st) /\ length (fst st) = n).
  destruct (for_each (range sy) _ _) as [st|] eqn:E; [|done]. cbn [bind].
  assert (P st) as [Hall Hlen].
  { refine (for_each_preserves P _ _ _ _ _ _ E); unfold P.
    - intros yy st1 st2 H1 Hrow.
      refine (for_each_preserves P _ _ _ _ _ H1 Hrow); unfold P.
      intros xx [vpx idx] st4 [Hf Hl] H. cbn [fst] in *.
      destruct (pixel_value im fl (x + xx) (y + yy)) as [v|] eqn:Ev; [|done].
      cbn [bind] in H.
      destruct (setitem vpx idx v) as [vpx'|] eqn:Es; [|done].
      cbn [bind] in H. injection H as <-. cbn [fst]. split.
      + eapply setitem_Forall; [exact Es|exact Hf|].
        by apply (pixel_value_range im fl _ _ v Ev).
      + by rewrite (setitem_length _ _ _ _ Es).
    - cbn [fst]. split; [|by rewrite length_replicate].
      apply Forall_replicate. unfold channel. lia. }
  pose proof (sum_bounds _ Hall) as Hsum. rewrite Hlen in Hsum.
  unfold floordiv. destruct (decide (sx * sy = 0)); [done|].
  intros [= <-].
  destruct (decide (0 < sx * sy)) as [Hpos|Hneg].
  - subst n. rewrite Z2Nat.id in Hsum by lia. split.
    + apply Z.div_pos; lia.
    + apply Z.div_le_upper_bound; lia.
  - assert (n = 0%nat) as Hn by (subst n; lia).
    rewrite Hn in Hsum. replace (sum (fst st)) with 0 by lia.
    rewrite Z.div_0_l by lia. lia.
Qed.

Lemma block_mean_range_witness : 0 <= 127 <= 255.
Proof.
  apply (block_mean_range two_grays
           {| has_alpha := false; rgb_mode := true; i_mode := 65536 |}
           2 2 0 0 127).
  reflexivity.
Defined.

(** ** The bit packer read back *)

Lemma page_of_row dest_h row :
  0 <= row < 8 * ((dest_h + 8 - 1) / 8) ->
  0 <= row / 8 < (dest_h + 8 - 1) / 8
  /\ 0 <= row mod 8 < 8
  /\ row / 8 * 8 + row mod 8 = row.
Proof.
  intros Hrow.
  pose proof (Z.div_mod row 8 ltac:(lia)).
  pose proof (Z.mod_pos_bound row 8 ltac:(lia)). lia.
Qed.

Lemma read_bit_pages img hn wn x row :
  0 <= x < wn -> 0 <= row < 8 * ((hn + 8 - 1) / 8) ->
  read_bit (mjoin (pages img hn ((hn + 8 - 1) / 8) wn)) wn x row
  = bool_decide (row < hn) && grid_bit img row x.
Proof.
  intros Hx Hrow. destruct (page_of_row hn row Hrow) as (Hp & Hy & E).
  unfold read_bit. rewrite pages_lookup by lia. unfold page_byte.
  rewrite (proj1 (page_byte_bits (lit img hn (row / 8) x) _ Hy)).
  unfold lit. by rewrite E.
Qed.

(** X11: Reading the stream the way the display addresses it gives back the
    grid: for a grid that covers the destination area, the bit of column
    [x] and row [row] is the grid bit for the rows below [dest_h], and 0
    for the padding rows of the last page. *)
Theorem pack_read_back img dest_h dest_w x row :
  covers img dest_h dest_w ->
  0 <= x < dest_w -> 0 <= row < 8 * ((dest_h + 8 - 1) / 8) ->
  exists bs,
    pack img dest_h ((dest_h + 8 - 1) / 8) dest_w = OK bs
    /\ read_bit bs dest_w x row
       = bool_decide (row < dest_h) && grid_bit img row x.
Proof.
  intros Hc Hx Hrow. eexists. split; [by apply pack_eq|].
  by apply read_bit_pages.
Qed.

Lemma pack_read_back_witness :
  exists bs,
    pack [[1; 0]; [0; 1]; [1; 1]] 3 ((3 + 8 - 1) / 8) 2 = OK bs
    /\ read_bit bs 2 1 2
       = bool_decide (2 < 3) && grid_bit [[1; 0]; [0; 1]; [1; 1]] 2 1.
Proof.
  apply (pack_read_back [[1; 0]; [0; 1]; [1; 1]] 3 2 1 2); try lia.
  - intros r c Hr Hc.
    assert (r = 0 \/ r = 1 \/ r = 2) as [-> | [-> | ->]] by lia;
      (assert (c = 0 \/ c = 1) as [-> | ->] by lia); by eexists.
  - vm_compute. split; [discriminate|reflexivity].
Defined.

Lemma big_sum_ext (f g : Z -> Z) l :
  (forall a, a ∈ l -> f a = g a) -> big_sum f l = big_sum g l.
Proof.
  induction l as [|a l IH]; intros H; [done|]. cbn [big_sum foldr].
  rewrite H by (apply elem_of_cons; by left).
  fold (big_sum f l). fold (big_sum g l).
  by rewrite IH by (intros; apply H; apply elem_of_cons; by right).
Qed.

(** X12: The stream depends on the grid only through the bits of the
    destination area: two grids that cover it and agree there on which
    cells are non-zero give the same bytes, whatever the non-zero values
    and the cells outside the area are. *)
Theorem pack_only_bits img1 img2 dest_h dest_w :
  covers img1 dest_h dest_w -> covers img2 dest_h dest_w ->
  (forall r c, 0 <= r < dest_h -> 0 <= c < dest_w ->
     grid_bit img1 r c = grid_bit img2 r c) ->
  pack img1 dest_h ((dest_h + 8 - 1) / 8) dest_w
  = pack img2 dest_h ((dest_h + 8 - 1) / 8) dest_w.
Proof.
  intros H1 H2 Hbits. rewrite !pack_eq by done. do 2 f_equal.
  unfold pages. apply list_fmap_ext. intros i p Hp.
  apply lookup_seqZ in Hp as [-> Hp]. apply list_fmap_ext. intros j x Hx.
  apply lookup_seqZ in Hx as [-> Hx]. unfold page_byte.
  apply big_sum_ext. intros y Hy. apply elem_of_seqZ in Hy. unfold lit.
  destruct (decide ((0 + Z.of_nat i) * 8 + y < dest_h)) as [Hlt|Hge].
  - by rewrite Hbits by lia.
  - by rewrite !bool_decide_eq_false_2 by done.
Qed.

Lemma pack_only_bits_witness :
  pack [[1; 0]; [0; 1]; [1; 1]] 3 ((3 + 8 - 1) / 8) 2
  = pack [[7; 0; 5]; [0; -1; 5]; [2; 3; 5]; [9; 9; 9]] 3 ((3 + 8 - 1) / 8) 2.
Proof.
  apply pack_only_bits.
  - intros r c Hr Hc.
    assert (r = 0 \/ r = 1 \/ r = 2) as [-> | [-> | ->]] by lia;
      (assert (c = 0 \/ c = 1) as [-> | ->] by lia); by eexists.
  - intros r c Hr Hc.
    assert (r = 0 \/ r = 1 \/ r = 2) as [-> | [-> | ->]] by lia;
      (assert (c = 0 \/ c = 1) as [-> | ->] by lia); by eexists.
  - intros r c Hr Hc.
    assert (r = 0 \/ r = 1 \/ r = 2) as [-> | [-> | ->]] by lia;
      (assert (c = 0 \/ c = 1) as [-> | ->] by lia); reflexivity.
Defined.

(** ** Thresholds at the ends of the range *)

Lemma downscale_high_threshold im fl sx sy thr img :
  255 <= thr ->
  downscale im fl sx sy thr = OK img ->
  img = replicate (Z.to_nat (Z.of_N (height im)))
                  (replicate (Z.to_nat (Z.of_N (width im))) 0).
Proof.
  intros Hthr. unfold downscale. cbv zeta. intros Hd.
  set (img0 := replicate _ _) in *.
  set (P := fun g : list (list Z) => g = img0).
  refine (for_each_preserves P _ _ _ _ _ _ Hd); unfold P; [|done].
  intros y img1 img2 H1 Hrow.
  refine (for_each_preserves P _ _ _ _ _ H1 Hrow); unfold P.
  intros x img3 img4 -> H.
  destruct (block_mean im fl sx sy x y) as [r|] eqn:Er; [|done].
  cbn [bind] in H. apply block_mean_range in Er.
  rewrite decide_False in H by lia. by injection H as <-.
Qed.

Lemma grid_bit_zeros rows cols r c :
  grid_bit (replicate rows (replicate cols 0)) r c = false.
Proof.
  unfold grid_bit, cell.
  destruct (replicate rows _ !! Z.to_nat r) as [row|] eqn:E; [|done].
  apply lookup_replicate in E as [-> _].
  destruct (replicate cols 0 !! Z.to_nat c) as [v|] eqn:E; [|done].
  by apply lookup_replicate in E as [-> _].
Qed.

(** X10: With a threshold of 255 or more no pixel is ever lit: every byte
    that [main] hands to [save_to_h] is 0, whatever the image. *)
Theorem high_threshold_all_zero im dest_w dest_h thr hd :
  255 <= thr ->
  main im dest_w dest_h thr = OK hd ->
  Forall (fun b => b = 0) (hdr_data hd).
Proof.
  intros Hthr H.
  destruct (decide (dest_w = 0 \/ dest_h = 0)) as [Hz|Hz].
  { by rewrite main_zero_dest in H. }
  rewrite main_unfold in H by tauto.
  destruct (decide _) as [|Hq]; [done|].
  destruct (detect_mode im) as [fl|]; [|done]. cbn [bind] in H.
  destruct (downscale im fl _ _ thr) as [img|] eqn:Hd; [|done].
  cbn [bind] in H.
  destruct (fun H1 H2 => main_pack im fl _ _ thr img H1 H2 Hd) as [Hp _];
    [lia|lia|].
  rewrite Hp in H. cbn [bind] in H. injection H as <-.
  cbn [save_to_h hdr_data].
  apply downscale_high_threshold in Hd; [|done]. subst img.
  apply Forall_join. unfold pages. apply Forall_fmap, Forall_forall.
  intros p _. simpl. apply Forall_fmap, Forall_forall. intros x _. simpl.
  unfold page_byte. change (seqZ 0 8) with [0; 1; 2; 3; 4; 5; 6; 7].
  unfold lit. cbn [big_sum foldr].
  rewrite !grid_bit_zeros. by rewrite !andb_false_r.
Qed.

Lemma high_threshold_all_zero_witness :
  Forall (fun b => b = 0) (hdr_data (save_to_h (replicate 32 0) 16 16)).
Proof.
  apply (high_threshold_all_zero (solid [0; 0; 0]) 16 16 255); [lia|].
  vm_compute. reflexivity.
Defined.

(** ** From the image to the bits of the stream *)

Lemma grid_bit_threshold img val sx sy thr x row :
  cell img (Z.to_nat row) (Z.to_nat x)
  = Some (threshold_bit val sx sy thr x row) ->
  grid_bit img row x = bool_decide (block_avg val sx sy x row > thr).
Proof.
  intros Hc. unfold grid_bit. rewrite Hc. unfold threshold_bit.
  destruct (decide (block_avg val sx sy x row > thr)).
  - by rewrite (bool_decide_eq_true_2 (_ > thr)).
  - by rewrite (bool_decide_eq_false_2 (_ > thr)).
Qed.

Lemma main_read_bit im dest_w dest_h thr sx sy fl val x row :
  0 < dest_w -> 0 < dest_h -> 1 <= sx -> 1 <= sy ->
  Z.of_N (width im) = dest_w * sx -> Z.of_N (height im) = dest_h * sy ->
  detect_mode im = OK fl ->
  (forall x y,
     0 <= x < Z.of_N (width im) -> 0 <= y < Z.of_N (height im) ->
     pixel_value im fl x y = OK (val x y)) ->
  0 <= x < dest_w -> 0 <= row < dest_h ->
  exists hd,
    main im dest_w dest_h thr = OK hd
    /\ read_bit (hdr_data hd) dest_w x row
       = bool_decide (block_avg val sx sy x row > thr).
Proof.
  intros Hdw Hdh Hsx Hsy Hw Hh Hm Hval Hx Hrow.
  destruct (main_completes im dest_w dest_h thr sx sy fl val)
    as (img & E & Hmain); try done.
  destruct (downscale_grid im fl sx sy thr dest_w dest_h val)
    as (img' & E' & _ & Hc); try done; try lia.
  rewrite E in E'. injection E' as <-.
  eexists. split; [exact Hmain|]. cbn [save_to_h hdr_data].
  pose proof (Z.div_pos (dest_h + 8 - 1) 8 ltac:(lia) ltac:(lia)).
  pose proof (Z.mul_succ_div_gt (dest_h + 8 - 1) 8 ltac:(lia)).
  rewrite read_bit_pages by lia.
  rewrite bool_decide_eq_true_2 by lia. cbn [andb].
  apply grid_bit_threshold.
  specialize (Hc (Z.to_nat row) (Z.to_nat x) ltac:(lia) ltac:(lia)).
  rewrite decide_True in Hc by lia. by rewrite !Z2Nat.id in Hc by lia.
Qed.

(** X13: End to end: when the windows tile the image exactly, the mode is
    supported and every pixel has a value, [main] returns a header, and
    the bit the display reads at column [x] and row [row] is set exactly
    when the floor mean of the values in the window of that destination
    pixel is above the threshold. *)
Theorem main_bit_is_window_mean im dest_w dest_h thr sx sy fl val x row :
  0 < dest_w -> 0 < dest_h -> 1 <= sx -> 1 <= sy ->
  Z.of_N (width im) = dest_w * sx -> Z.of_N (height im) = dest_h * sy ->
  detect_mode im = OK fl ->
  (forall x y,
     0 <= x < Z.of_N (width im) -> 0 <= y < Z.of_N (height im) ->
     pixel_value im fl x y = OK (val x y)) ->
  0 <= x < dest_w -> 0 <= row < dest_h ->
  exists hd,
    main im dest_w dest_h thr = OK hd
    /\ (read_bit (hdr_data hd) dest_w x row = true
        <-> big_sum (fun yy =>
              big_sum (fun xx => val (x * sx + xx) (row * sy + yy))
                      (seqZ 0 sx)) (seqZ 0 sy) / (sx * sy) > thr).
Proof.
  intros Hdw Hdh Hsx Hsy Hw Hh Hm Hval Hx Hrow.
  destruct (main_read_bit im dest_w dest_h thr sx sy fl val x row)
    as (hd & E & Hb); try done.
  exists hd. split; [done|]. rewrite Hb.
  unfold block_avg, block_sum. apply bool_decide_eq_true.
Qed.

Lemma main_bit_is_window_mean_witness :
  exists hd,
    main two_grays 2 1 127 = OK hd
    /\ (read_bit (hdr_data hd) 2 1 0 = true
        <-> big_sum (fun yy =>
              big_sum (fun xx => two_grays_val (1 * 2 + xx) (0 * 2 + yy))
                      (seqZ 0 2)) (seqZ 0 2) / (2 * 2) > 127).
Proof.
  apply (main_bit_is_window_mean two_grays 2 1 127 2 2
           {| has_alpha := false; rgb_mode := true; i_mode := 65536 |}
           two_grays_val 1 0); try lia; try reflexivity.
  intros x y Hx Hy. cbn in Hx, Hy.
  assert (x = 0 \/ x = 1 \/ x = 2 \/ x = 3) as [-> | [-> | [-> | ->]]] by lia;
    (assert (y = 0 \/ y = 1) as [-> | ->] by lia); reflexivity.
Defined.

Lemma load_inside im x y :
  0 <= x < Z.of_N (width im) -> 0 <= y < Z.of_N (height im) ->
  load im x y = OK (pixels im x y).
Proof.
  intros Hx Hy. unfold load.
  rewrite (decide_False (P := x < 0)), (decide_False (P := y < 0)) by lia.
  cbv zeta. by rewrite decide_True by lia.
Qed.

Lemma big_sum_const v (l : list Z) :
  big_sum (fun _ => v) l = Z.of_nat (length l) * v.
Proof.
  induction l as [|a l IH]; [done|]. cbn [big_sum foldr length].
  fold (big_sum (fun _ => v) l). rewrite IH. lia.
Qed.

Lemma block_avg_const v sx sy dx dy :
  1 <= sx -> 1 <= sy -> block_avg (fun _ _ => v) sx sy dx dy = v.
Proof.
  intros Hsx Hsy. unfold block_avg, block_sum.
  rewrite !big_sum_const, !length_seqZ, !Z2Nat.id by lia.
  replace (sy * (sx * v)) with (v * (sx * sy)) by lia.
  apply Z.div_mul. lia.
Qed.

(** X14: An image of mode RGB without transparency data, of one colour
    and of any size that is an exact multiple of positive destination
    dimensions, converts to a stream whose destination bits are all
    alike: all set when the luma of the inverted colour is above the
    threshold, all clear otherwise. *)
Theorem solid_image_uniform im dest_w dest_h thr sx sy r g b x row :
  0 < dest_w -> 0 < dest_h -> 1 <= sx -> 1 <= sy ->
  Z.of_N (width im) = dest_w * sx -> Z.of_N (height im) = dest_h * sy ->
  mode im = "RGB"%string -> has_transparency_data im = false ->
  (forall x y, pixels im x y = STuple [r; g; b]) ->
  0 <= x < dest_w -> 0 <= row < dest_h ->
  exists hd,
    main im dest_w dest_h thr = OK hd
    /\ read_bit (hdr_data hd) dest_w x row
       = bool_decide (inverted_luma r g b > thr).
Proof.
  intros Hdw Hdh Hsx Hsy Hw Hh Hmode Ht Hpix Hx Hrow.
  destruct (main_read_bit im dest_w dest_h thr sx sy
              {| has_alpha := false; rgb_mode := true; i_mode := 65536 |}
              (fun _ _ => inverted_luma r g b) x row)
    as (hd & E & Hb); try done.
  - unfold detect_mode. rewrite Ht, Hmode. reflexivity.
  - intros x' y' Hx' Hy'. apply pixel_value_eq. unfold pixel_rgb.
    cbn [has_alpha rgb_mode]. rewrite load_inside by done.
    by rewrite Hpix.
  - exists hd. split; [done|]. by rewrite Hb, block_avg_const.
Qed.

Lemma solid_image_uniform_witness :
  exists hd,
    main (solid [10; 20; 30]) 8 4 127 = OK hd
    /\ read_bit (hdr_data hd) 8 5 3
       = bool_decide (inverted_luma 10 20 30 > 127).
Proof.
  apply (solid_image_uniform (solid [10; 20; 30]) 8 4 127 2 4 10 20 30 5 3);
    try lia; reflexivity.
Defined.

(** ** Images the mode detection turns away *)

Lemma main_checked im dest_w dest_h thr :
  dest_w <> 0 -> dest_h <> 0 ->
  let w := Z.of_N (width im) in
  let h := Z.of_N (height im) in
  let sx := Z.max 1 (w / dest_w) in
  let sy := Z.max 1 (h / dest_h) in
  w / sx = dest_w -> h / sy = dest_h ->
  main im dest_w dest_h thr
  = (fl <- detect_mode im ;;
     img <- downscale im fl sx sy thr ;;
     result_array <- pack img (h / sy) ((h / sy + 8 - 1) / 8) (w / sx) ;;
     OK (save_to_h result_array (w / sx) (h / sy))).
Proof.
  intros Hdw Hdh w h sx sy Hw Hh. rewrite main_unfold by done.
  fold w h sx sy. by rewrite decide_False by lia.
Qed.

Lemma split_head sep s : exists piece rest, split sep s = piece :: rest.
Proof.
  destruct s as [|c s]; cbn [split]; [by eexists _, _|].
  destruct (decide (c = sep)); [by eexists _, _|].
  destruct (split sep s); by eexists _, _.
Qed.

(** X15: When the dimension check passes and the image has no transparency
    data, a mode other than RGB and RGBA whose text before the first ";"
    is not "I" ends the run with the unsupported-format exit, before any
    pixel is read. *)
Theorem unsupported_mode_exits im dest_w dest_h thr :
  dest_w <> 0 -> dest_h <> 0 ->
  Z.of_N (width im) / Z.max 1 (Z.of_N (width im) / dest_w) = dest_w ->
  Z.of_N (height im) / Z.max 1 (Z.of_N (height im) / dest_h) = dest_h ->
  has_transparency_data im = false ->
  mode im <> "RGBA"%string -> mode im <> "RGB"%string ->
  head (split ";" (mode im)) <> Some "I"%string ->
  main im dest_w dest_h thr = Raise (SystemExit UnsupportedFormat).
Proof.
  intros Hdw Hdh Hw Hh Ht H1 H2 Hs. rewrite main_checked by done.
  unfold detect_mode. rewrite Ht. cbn [negb].
  rewrite !decide_False by done.
  destruct (split_head ";" (mode im)) as (s0 & rest & E).
  rewrite E in *. cbn [head] in Hs.
  change (getitem (s0 :: rest) 0) with (OK s0). cbn [bind].
  rewrite decide_True by congruence. reflexivity.
Qed.

Lemma unsupported_mode_exits_witness :
  main (gray "L" 32 16 7) 16 16 127 = Raise (SystemExit UnsupportedFormat).
Proof.
  apply unsupported_mode_exits; (lia || reflexivity || done).
Defined.

(** X16: When the dimension check passes and the image has no
    transparency data, a tag that starts with "I;" but whose depth does
    not read as an integer (such as the byte-order variants of the 16-bit
    mode) is not turned away with the unsupported-format exit: the run
    ends with the ValueError of [int]. *)
Theorem bad_depth_raises im dest_w dest_h thr t rest e :
  dest_w <> 0 -> dest_h <> 0 ->
  Z.of_N (width im) / Z.max 1 (Z.of_N (width im) / dest_w) = dest_w ->
  Z.of_N (height im) / Z.max 1 (Z.of_N (height im) / dest_h) = dest_h ->
  has_transparency_data im = false ->
  split ";" (mode im) = "I"%string :: t :: rest ->
  py_int t = Raise e ->
  e = ValueError /\ main im dest_w dest_h thr = Raise ValueError.
Proof.
  intros Hdw Hdh Hw Hh Ht Hs Hi.
  assert (e = ValueError) as ->.
  { unfold py_int in Hi. cbv zeta in Hi.
    repeat case_match; congruence. }
  split; [done|]. rewrite main_checked by done.
  unfold detect_mode. rewrite Ht. cbn [negb].
  assert (mode im <> "RGBA"%string /\ mode im <> "RGB"%string) as [H1 H2].
  { split; intros E; rewrite E in Hs; vm_compute in Hs; discriminate. }
  rewrite !decide_False by done. rewrite Hs.
  change (getitem ("I"%string :: t :: rest) 0) with (OK "I"%string).
  cbn [bind]. rewrite decide_False by (intros H; by apply H).
  change (getitem ("I"%string :: t :: rest) 1) with (OK t).
  cbn [bind]. by rewrite Hi.
Qed.

Lemma bad_depth_raises_witness :
  ValueError = ValueError
  /\ main (gray "I;16B" 32 16 7) 16 16 127 = Raise ValueError.
Proof.
  apply (bad_depth_raises (gray "I;16B" 32 16 7) 16 16 127 "16B" []);
    (lia || reflexivity || done).
Defined.

(** X17: When the dimension check passes and the image has no
    transparency data, the mode "I" without a depth passes the test on
    its first piece and then has no second piece: the run ends with an
    IndexError, not with the unsupported-format exit. *)
Theorem missing_depth_raises im dest_w dest_h thr :
  dest_w <> 0 -> dest_h <> 0 ->
  Z.of_N (width im) / Z.max 1 (Z.of_N (width im) / dest_w) = dest_w ->
  Z.of_N (height im) / Z.max 1 (Z.of_N (height im) / dest_h) = dest_h ->
  has_transparency_data im = false ->
  mode im = "I"%string ->
  main im dest_w dest_h thr = Raise IndexError.
Proof.
  intros Hdw Hdh Hw Hh Ht Hm. rewrite main_checked by done.
  unfold detect_mode. by rewrite Ht, Hm.
Qed.

Lemma missing_depth_raises_witness :
  main (gray "I" 32 16 7) 16 16 127 = Raise IndexError.
Proof.
  apply missing_depth_raises; (lia || reflexivity || done).
Defined.

(** ** Transparency data on an image that is not RGBA *)

Lemma for_each_head_raises {A St} (a : A) l (body : A -> St -> result St) s e :
  body a s = Raise e -> for_each (a :: l) body s = Raise e.
Proof. intros H. cbn [for_each]. by rewrite H. Qed.

Lemma range3_head n s :
  0 < n -> 0 < s -> exists l, range3 0 n s = 0 :: l.
Proof.
  intros Hn Hs. unfold range3.
  assert (0 < (n - 0 + s - 1) / s) as Hq.
  { apply Z.div_str_pos. lia. }
  rewrite seqZ_cons by done. csimpl. by eexists.
Qed.

Lemma block_mean_first_pixel im fl sx sy x y e :
  1 <= sx -> 1 <= sy ->
  pixel_value im fl (x + 0) (y + 0) = Raise e ->
  block_mean im fl sx sy x y = Raise e.
Proof.
  intros Hsx Hsy Hp. unfold block_mean, range. cbv zeta.
  destruct (range3_head sy 1) as [ly ->]; [lia|lia|].
  destruct (range3_head sx 1) as [lx ->]; [lia|lia|].
  rewrite (for_each_head_raises _ _ _ _ e); [done|].
  rewrite (for_each_head_raises _ _ _ _ e); [done|].
  by rewrite Hp.
Qed.

Lemma downscale_first_pixel im fl sx sy thr e :
  0 < Z.of_N (width im) -> 0 < Z.of_N (height im) ->
  1 <= sx -> 1 <= sy ->
  pixel_value im fl 0 0 = Raise e ->
  downscale im fl sx sy thr = Raise e.
Proof.
  intros Hw Hh Hsx Hsy Hp. unfold downscale. cbv zeta.
  destruct (range3_head (Z.of_N (height im)) sy) as [ly ->]; [lia|lia|].
  destruct (range3_head (Z.of_N (width im)) sx) as [lx ->]; [lia|lia|].
  rewrite (for_each_head_raises _ _ _ _ e); [done|].
  rewrite (for_each_head_raises _ _ _ _ e); [done|].
  by rewrite (block_mean_first_pixel im fl sx sy 0 0 e).
Qed.

Lemma rgba2rgb_short c :
  (length c < 4)%nat -> rgba2rgb c default_bg = Raise IndexError.
Proof.
  intros H. destruct c as [|r [|g [|b [|a rest]]]]; try reflexivity.
  cbn [length] in H. lia.
Qed.

(** X18: When the decoder reports transparency data the mode is not looked
    at and every pixel is treated as RGBA.  If the dimension check passes
    and the first pixel is a single number (a palette or gray image), the
    run ends with a TypeError; if it is a tuple of fewer than four
    components, with an IndexError.  No header is written. *)
Theorem transparency_needs_four_components im dest_w dest_h thr :
  dest_w <> 0 -> dest_h <> 0 ->
  Z.of_N (width im) / Z.max 1 (Z.of_N (width im) / dest_w) = dest_w ->
  Z.of_N (height im) / Z.max 1 (Z.of_N (height im) / dest_h) = dest_h ->
  has_transparency_data im = true ->
  (forall v, pixels im 0 0 = SInt v ->
     main im dest_w dest_h thr = Raise TypeError)
  /\ (forall c, pixels im 0 0 = STuple c -> (length c < 4)%nat ->
        main im dest_w dest_h thr = Raise IndexError).
Proof.
  intros Hdw Hdh Hw Hh Ht.
  assert (0 < Z.of_N (width im)) as Hw0.
  { destruct (decide (Z.of_N (width im) = 0)) as [E|]; [|lia].
    rewrite E, Z.div_0_l in Hw by lia. lia. }
  assert (0 < Z.of_N (height im)) as Hh0.
  { destruct (decide (Z.of_N (height im) = 0)) as [E|]; [|lia].
    rewrite E, Z.div_0_l in Hh by lia. lia. }
  assert (forall e,
            pixel_value im
              {| has_alpha := true; rgb_mode := false; i_mode := 65536 |} 0 0
            = Raise e ->
            main im dest_w dest_h thr = Raise e) as Hmain.
  { intros e He. rewrite main_checked by done.
    unfold detect_mode. rewrite Ht. cbn [negb bind].
    by rewrite (downscale_first_pixel _ _ _ _ _ e) by (done || lia). }
  split.
  - intros v Hv. apply Hmain. unfold pixel_value, pixel_rgb.
    cbn [has_alpha]. rewrite load_inside by lia. by rewrite Hv.
  - intros c Hc Hlen. apply Hmain. unfold pixel_value, pixel_rgb.
    cbn [has_alpha]. rewrite load_inside by lia. rewrite Hc.
    cbn [bind as_seq]. by rewrite rgba2rgb_short.
Qed.

Lemma transparency_needs_four_components_witness :
  (forall v, pixels palette_with_transparency 0 0 = SInt v ->
     main palette_with_transparency 16 16 127 = Raise TypeError)
  /\ (forall c, pixels palette_with_transparency 0 0 = STuple c ->
        (length c < 4)%nat ->
        main palette_with_transparency 16 16 127 = Raise IndexError).
Proof.
  apply transparency_needs_four_components; (lia || reflexivity || done).
Defined.

(** ** The text of the data array *)

Lemma str_app_assoc (a b c : string) : (a +:+ b) +:+ c = a +:+ (b +:+ c).
Proof.
  induction a as [|x a IH]; [done|].
  change (String x ((a +:+ b) +:+ c) = String x (a +:+ (b +:+ c))).
  by rewrite IH.
Qed.

Lemma str_app_nil_r (a : string) : a +:+ "" = a.
Proof.
  induction a as [|x a IH]; [done|].
  change (String x (a +:+ "") = String x a). by rewrite IH.
Qed.

Lemma items_text_cons r c :
  items_text (r :: c) = hex r +:+ (", " +:+ items_text c).
Proof. reflexivity. Qed.

Lemma format_items_app ipr l1 l2 st :
  format_items ipr (l1 ++ l2) st
  = match format_items ipr l1 st with
    | Some st' => format_items ipr l2 st'
    | None => None
    end.
Proof.
  revert st. induction l1 as [|r l1 IH]; intros st; [done|].
  cbn [app format_items]. destruct (format_item ipr r st); [apply IH|done].
Qed.

(** A run of items inside one row.  [text] and [g] are the row text and
    the row number once the row is open: what the state holds when
    [row_idx] is not 0, what the first item makes them otherwise. *)
Lemma format_row ipr c st text g :
  c <> [] -> 0 <= row_idx st ->
  (row_idx st = 0 -> text = row_text st +:+ tab /\ g = row_gidx st) ->
  (row_idx st <> 0 -> text = row_text st /\ row_start st = Some g) ->
  row_idx st + Z.of_nat (length c) <= ipr ->
  format_items ipr c st
  = Some (if decide (row_idx st + Z.of_nat (length c) = ipr) then
            {| row_idx := 0;
               row_gidx := row_gidx st + Z.of_nat (length c);
               row_text := text +:+ (items_text c
                             +:+ ("//" +:+ (str g +:+ newline)));
               row_start := Some g |}
          else
            {| row_idx := row_idx st + Z.of_nat (length c);
               row_gidx := row_gidx st + Z.of_nat (length c);
               row_text := text +:+ items_text c;
               row_start := Some g |}).
Proof.
  revert st text. induction c as [|r c IH]; intros st text Hne Hidx H0 H1 Hle;
    [done|].
  cbn [format_items length] in *.
  assert (exists st1,
            (if decide (row_idx st = 0) then
               {| row_idx := row_idx st; row_gidx := row_gidx st;
                  row_text := row_text st +:+ tab;
                  row_start := Some (row_gidx st) |}
             else st) = st1
            /\ row_idx st1 = row_idx st /\ row_gidx st1 = row_gidx st
            /\ row_text st1 = text /\ row_start st1 = Some g)
    as (st1 & Est1 & Ei & Eg & Et & Es).
  { eexists. split; [reflexivity|]. destruct (decide (row_idx st = 0)) as [E|E].
    - destruct (H0 E) as [-> ->]. by repeat split.
    - destruct (H1 E) as [-> ->]. by repeat split. }
  unfold format_item. cbv zeta. rewrite Est1, Ei, Eg, Et, Es.
  destruct c as [|r' c].
  - cbn [length format_items items_text foldr].
    replace (Z.of_nat 1) with 1 by lia.
    destruct (decide (row_idx st + 1 = ipr)).
    + by rewrite ?str_app_assoc.
    + by rewrite ?str_app_assoc.
  - rewrite decide_False by (cbn [length] in Hle; lia).
    rewrite (IH _ (text +:+ (hex r +:+ ", ")) ltac:(done)); cbn [row_idx
      row_gidx row_text row_start]; try lia; try done.
    + replace (row_idx st + 1 + Z.of_nat (length (r' :: c)))
        with (row_idx st + Z.of_nat (S (length (r' :: c)))) by lia.
      replace (row_gidx st + 1 + Z.of_nat (length (r' :: c)))
        with (row_gidx st + Z.of_nat (S (length (r' :: c)))) by lia.
      rewrite (items_text_cons r (r' :: c)).
      by rewrite !str_app_assoc.
Qed.

Lemma format_rows_from ipr fuel l st :
  1 <= ipr -> (length l <= fuel)%nat -> row_idx st = 0 ->
  match format_items ipr l st with
  | Some st' =>
      if decide (row_idx st' > 0) then
        match row_start st' with
        | Some start =>
            Some (row_text st' +:+ ("//" +:+ (str start +:+ newline)))
        | None => None
        end
      else Some (row_text st')
  | None => None
  end
  = Some (row_text st
          +:+ rows_text fuel (Z.to_nat ipr) (row_gidx st) l).
Proof.
  intros Hipr. revert l st.
  induction fuel as [|fuel IH]; intros l st Hlen Hidx.
  { destruct l; [|cbn in Hlen; lia]. cbn [format_items rows_text].
    rewrite decide_False by lia. by rewrite str_app_nil_r. }
  destruct l as [|r l].
  { cbn [format_items rows_text].
    rewrite decide_False by lia. by rewrite str_app_nil_r. }
  cbn [rows_text]. set (n := Z.to_nat ipr). set (l0 := r :: l) in *.
  assert (l0 <> []) as Hne by done.
  rewrite <- (take_drop n l0) at 1. rewrite format_items_app.
  assert (take n l0 <> []) as Hne'.
  { unfold l0. destruct n as [|n'] eqn:En; [lia|done]. }
  rewrite (format_row ipr (take n l0) st (row_text st +:+ tab) (row_gidx st));
    try done; try lia; try (rewrite length_take; lia).
  rewrite Hidx, Z.add_0_l.
  destruct (decide (Z.of_nat (length (take n l0)) = ipr)) as [Efull|Epart].
  - rewrite IH; cbn [row_idx row_gidx row_text]; [|rewrite length_drop; lia|done].
    unfold row_text_of. rewrite Efull.
    replace (Z.of_nat n) with ipr by lia.
    by rewrite !str_app_assoc.
  - assert (length l0 < n)%nat as Hshort
      by (rewrite length_take in Epart; lia).
    rewrite (drop_ge l0 n) by lia. cbn [format_items row_idx row_text row_start].
    rewrite decide_True by (rewrite length_take; unfold l0; cbn [length]; lia).
    f_equal. unfold row_text_of.
    replace (rows_text fuel n (row_gidx st + Z.of_nat n) []) with ""
      by (by destruct fuel).
    by rewrite !str_app_assoc, str_app_nil_r.
Qed.

(** X19: For a positive [items_per_row] the array text is the bytes cut into
    rows of [items_per_row] items (the last row may be shorter); each row
    is a tab, its items in hexadecimal each followed by ", ", and a
    comment with the index of its first byte.  The loop never reads
    [start] before it is set. *)
Theorem format_data_rows result items_per_row :
  1 <= items_per_row ->
  format_data result items_per_row
  = Some (rows_text (length result) (Z.to_nat items_per_row) 0 result).
Proof.
  intros Hipr. unfold format_data.
  by rewrite (format_rows_from items_per_row (length result)).
Qed.

Lemma format_data_rows_witness :
  format_data [1; 2; 255; 4; 5] 2
  = Some (rows_text (length [1; 2; 255; 4; 5]) (Z.to_nat 2) 0
                    [1; 2; 255; 4; 5]).
Proof. apply format_data_rows. lia. Defined.

(** ** Header names *)

Lemma str_app_cons x (a b : string) : String x a +:+ b = String x (a +:+ b).
Proof. reflexivity. Qed.

Lemma contains_app c (a b : string) :
  contains c (a +:+ b) = contains c a || contains c b.
Proof.
  induction a as [|x a IH]; [done|].
  rewrite str_app_cons. cbn [contains]. rewrite IH. by rewrite orb_assoc.
Qed.

Lemma rfind_lower c s : -1 <= rfind c s.
Proof.
  induction s as [|a s IH]; cbn [rfind]; [lia|].
  cbv zeta. repeat case_decide; lia.
Qed.

Lemma rfind_absent c s : contains c s = false -> rfind c s = -1.
Proof.
  induction s as [|a s IH]; [done|]. cbn [contains rfind].
  intros H. apply orb_false_iff in H as [Ha Hs].
  apply bool_decide_eq_false in Ha. rewrite (IH Hs). cbv zeta.
  rewrite decide_False by lia. by rewrite decide_False.
Qed.

Lemma rfind_last c (s1 s2 : string) :
  contains c s2 = false ->
  rfind c (s1 +:+ String c s2) = Z.of_nat (String.length s1).
Proof.
  intros H. induction s1 as [|a s1 IH].
  - change ("" +:+ String c s2) with (String c s2). cbn [rfind String.length].
    rewrite (rfind_absent _ _ H). cbv zeta.
    rewrite decide_False by lia. by rewrite decide_True.
  - rewrite str_app_cons. cbn [rfind String.length]. rewrite IH. cbv zeta.
    rewrite decide_True by lia. lia.
Qed.

Lemma drop_str_app (s1 s2 : string) :
  drop_str (String.length s1) (s1 +:+ s2) = s2.
Proof. induction s1 as [|a s1 IH]; [by destruct s2|]. by rewrite str_app_cons. Qed.

Lemma take_str_app (s1 s2 : string) :
  take_str (String.length s1) (s1 +:+ s2) = s1.
Proof.
  induction s1 as [|a s1 IH]; [done|].
  rewrite str_app_cons. cbn [String.length take_str]. by rewrite IH.
Qed.

Lemma basename_plain name : contains "/" name = false -> basename name = name.
Proof. intros H. unfold basename. by rewrite (rfind_absent _ _ H). Qed.

Lemma basename_dir dir name :
  contains "/" name = false -> basename (dir +:+ String "/" name) = name.
Proof.
  intros H. unfold basename. rewrite (rfind_last _ _ _ H).
  replace (Z.to_nat (Z.of_nat (String.length dir) + 1))
    with (String.length (dir +:+ "/")).
  - rewrite <- (drop_str_app (dir +:+ "/") name) at 2.
    by rewrite str_app_assoc.
  - induction dir as [|a dir IH]; [done|].
    rewrite str_app_cons. cbn [String.length]. rewrite IH. lia.
Qed.

Lemma splitext_dot stem ext :
  contains "/" stem = false -> contains "/" ext = false ->
  contains "." ext = false -> has_other "." stem = true ->
  splitext (stem +:+ String "." ext) = (stem, String "." ext).
Proof.
  intros Hs He Hd Ho. unfold splitext.
  rewrite (rfind_last "." stem ext Hd).
  rewrite (rfind_absent "/" (stem +:+ String "." ext)).
  2:{ rewrite contains_app, Hs. cbn [contains orb]. by rewrite He. }
  cbv zeta. rewrite decide_True by lia.
  change (Z.to_nat (-1 + 1)) with 0%nat. cbn [drop_str].
  replace (Z.to_nat (Z.of_nat (String.length stem) - (-1 + 1)))
    with (String.length stem) by lia.
  rewrite Nat2Z.id, take_str_app, Ho. by rewrite drop_str_app.
Qed.

Lemma splitext_no_dot name :
  contains "." name = false -> splitext name = (name, "").
Proof.
  intros H. unfold splitext. rewrite (rfind_absent "." name H). cbv zeta.
  pose proof (rfind_lower "/" name). by rewrite decide_False by lia.
Qed.

Lemma replace_absent old new s :
  contains old s = false -> replace old new s = s.
Proof.
  induction s as [|a s IH]; [done|]. cbn [contains replace].
  intros H. apply orb_false_iff in H as [Ha Hs].
  apply bool_decide_eq_false in Ha. rewrite decide_False by done.
  by rewrite (IH Hs).
Qed.

Lemma replace_removes old new s :
  contains old new = false -> contains old (replace old new s) = false.
Proof.
  intros Hn. induction s as [|a s IH]; [done|]. cbn [replace].
  destruct (decide (a = old)) as [->|Hne].
  - by rewrite contains_app, Hn, IH.
  - cbn [contains]. rewrite IH. by rewrite bool_decide_eq_false_2.
Qed.

(** X20: For a file [stem.ext], with or without a directory in front, where
    [ext] has no dot, neither part has a "/" and [stem] is not made of
    dots only: the header file is [Img_<stem>_<ext>.h], the name written
    as [_FILENAME] is [stem], and the base of the defines is [IMG_]
    followed by [stem] with every "-" turned into "_".  The hyphens stay
    in the file name. *)
Theorem header_names dir stem ext :
  contains "/" stem = false -> contains "/" ext = false ->
  contains "." ext = false -> has_other "." stem = true ->
  let name := stem +:+ String "." ext in
  get_h_filename name = ("Img_" +:+ stem +:+ "_" +:+ ext +:+ ".h", stem)
  /\ get_h_filename (dir +:+ String "/" name) = get_h_filename name
  /\ get_h_define name = "IMG_" +:+ replace "-" "_" stem
  /\ get_h_define (dir +:+ String "/" name) = get_h_define name.
Proof.
  intros Hs He Hd Ho name.
  assert (contains "/" name = false) as Hn.
  { unfold name. rewrite contains_app, Hs. cbn [contains orb].
    by rewrite He. }
  unfold get_h_filename, get_h_define. cbv zeta.
  rewrite basename_dir, basename_plain by done.
  unfold name. rewrite splitext_dot by done. cbn [fst snd replace].
  rewrite decide_True by done.
  rewrite (replace_absent "." "" ext Hd). by repeat split.
Qed.

Lemma header_names_witness :
  let name := "my-logo.v2" +:+ String "." "png" in
  get_h_filename name
  = ("Img_" +:+ "my-logo.v2" +:+ "_" +:+ "png" +:+ ".h", "my-logo.v2")
  /\ get_h_filename ("imgs/2024" +:+ String "/" name) = get_h_filename name
  /\ get_h_define name = "IMG_" +:+ replace "-" "_" "my-logo.v2"
  /\ get_h_define ("imgs/2024" +:+ String "/" name) = get_h_define name.
Proof. apply (header_names "imgs/2024" "my-logo.v2" "png"); reflexivity. Defined.

(** X21: The base of the defines never contains a hyphen, whatever the file
    name. *)
Theorem define_has_no_hyphen filename :
  contains "-" (get_h_define filename) = false.
Proof.
  unfold get_h_define. cbv zeta. rewrite contains_app.
  by rewrite replace_removes.
Qed.

(** X22: A file name without a dot has an empty extension: the header file is
    [Img_<name>_.h]. *)
Theorem header_name_without_extension name :
  contains "/" name = false -> contains "." name = false ->
  get_h_filename name = ("Img_" +:+ name +:+ "_.h", name).
Proof.
  intros Hs Hd. unfold get_h_filename. cbv zeta.
  rewrite basename_plain, splitext_no_dot by done. reflexivity.
Qed.

Lemma header_name_without_extension_witness :
  get_h_filename "plain" = ("Img_" +:+ "plain" +:+ "_.h", "plain").
Proof. apply header_name_without_extension; reflexivity. Defined.

(** ** The bytes fit an unsigned char *)

(** X23: Every byte that [main] hands to [save_to_h] lies in 0..255, so each
    item of the array fits the [unsigned char] it is declared as. *)
Theorem bytes_fit_unsigned_char im dest_w dest_h thr hd :
  main im dest_w dest_h thr = OK hd ->
  Forall (fun b => 0 <= b < 256) (hdr_data hd).
Proof.
  intros H.
  destruct (decide (dest_w = 0 \/ dest_h = 0)) as [Hz|Hz].
  { by rewrite main_zero_dest in H. }
  rewrite main_unfold in H by tauto.
  destruct (decide _) as [|Hq]; [done|].
  destruct (detect_mode im) as [fl|]; [|done]. cbn [bind] in H.
  destruct (downscale im fl _ _ thr) as [img|] eqn:Hd; [|done].
  cbn [bind] in H.
  destruct (fun H1 H2 => main_pack im fl _ _ thr img H1 H2 Hd) as [Hp _];
    [lia|lia|].
  rewrite Hp in H. cbn [bind] in H. injection H as <-.
  cbn [save_to_h hdr_data].
  apply Forall_join. unfold pages. apply Forall_fmap, Forall_forall.
  intros p _. simpl. apply Forall_fmap, Forall_forall. intros x _. simpl.
  unfold page_byte. apply (page_byte_bits (lit img _ p x) 0). lia.
Qed.

Lemma bytes_fit_unsigned_char_witness :
  Forall (fun b => 0 <= b < 256)
         (hdr_data (save_to_h (replicate 32 255) 16 16)).
Proof.
  apply (bytes_fit_unsigned_char (solid [0; 0; 0]) 16 16 127).
  vm_compute. reflexivity.
Defined.
